(** * fmf: command line glue, normalisation and the tree engine contract

    A shallow embedding of [src/fmf/cli.py] and [src/fmf/normalize.py],
    together with models of the tree engine (merge, load, selection,
    initialisation) that the command line calls but whose code lives in
    [fmf.base] and [fmf.utils]. *)

From Stdlib Require Import String Ascii List ZArith Bool Lia.
From stdpp Require Import base option list gmap strings.
Import ListNotations.

Set Warnings "-register-all".

Local Open Scope string_scope.
Local Open Scope list_scope.

(** ** Python runtime: exceptions, results, values *)

Module Py.

(** The exception classes that occur in the sources.  [SystemExit],
    [KeyboardInterrupt] and [GeneratorExit] derive from [BaseException]
    only; every other class derives from [Exception]. *)
Inductive exn_class :=
  | BaseException
  | SystemExit
  | KeyboardInterrupt
  | GeneratorExit
  | Exception
  | GeneralError
  | FormatError
  | FileError
  | FilterError
  | KeyError
  | TypeError
  | ValueError
  | AssertionError
  | FileNotFoundError
  | NotADirectoryError
  | PermissionError
  | OtherError (name : string).

(** [isinstance(err, Exception)] *)
Definition is_Exception (c : exn_class) : bool :=
  match c with
  | BaseException | SystemExit | KeyboardInterrupt | GeneratorExit => false
  | _ => true
  end.

(** An exception object: its class, its message and [__cause__]. *)
Inductive exn :=
  | Exn (cls : exn_class) (msg : string) (cause : option exn).

Definition exn_cls (e : exn) : exn_class := let 'Exn c _ _ := e in c.
Definition exn_msg (e : exn) : string := let 'Exn _ m _ := e in m.
Definition exn_cause (e : exn) : option exn := let 'Exn _ _ c := e in c.

(** Outcome of a call: a returned value or a raised exception. *)
Inductive res (A : Type) :=
  | Ret (a : A)
  | Raise (e : exn).
Arguments Ret {A} a.
Arguments Raise {A} e.

Definition bind {A B} (r : res A) (k : A -> res B) : res B :=
  match r with
  | Ret a => k a
  | Raise e => Raise e
  end.

(** The loosely typed option values the command line passes around in
    its [dict[str, Any]] groups. *)
Inductive pyval :=
  | PNone
  | PBool (b : bool)
  | PInt (n : Z)
  | PStr (s : string)
  | PTuple (l : list string).

(** Python truth value *)
Definition truthy (v : pyval) : bool :=
  match v with
  | PNone => false
  | PBool b => b
  | PInt n => negb (n =? 0)%Z
  | PStr s => negb (String.eqb s "")
  | PTuple l => match l with [] => false | _ => true end
  end.

(** [d[key]] on a dict *)
Definition getitem (d : gmap string pyval) (key : string) : res pyval :=
  match d !! key with
  | Some v => Ret v
  | None => Raise (Exn KeyError key None)
  end.

(** truth value of a dict: non-empty *)
Definition dict_truthy (d : gmap string pyval) : bool :=
  negb (bool_decide (d = ∅)).

(** the line terminator *)
Definition nl : string := String "010"%char EmptyString.

(** [sep.join(l)] *)
Fixpoint join (sep : string) (l : list string) : string :=
  match l with
  | [] => ""
  | [x] => x
  | x :: tl => x +:+ sep +:+ join sep tl
  end.

End Py.

Import Py.

Declare Scope py_scope.
Delimit Scope py_scope with py.
Notation "x <- c ;; k" := (Py.bind c (fun x => k))
  (at level 100, c at next level, right associativity) : py_scope.

(** ** [fmf.cli]: the show/ls pipeline *)

Module Cli.

(** [ctx.obj] as filled in by [main] *)
Record Context := { verbose : bool; debug : Z }.

(** What [_show] does to its surroundings: text written by [click.echo],
    lines logged through [info], and the root paths handed to [Tree]. *)
Record world := {
  stdout : string;
  logged : list string;
  loaded : list string
}.

Definition echo (s : string) (w : world) : world :=
  {| stdout := stdout w +:+ s; logged := logged w; loaded := loaded w |}.

Definition info (s : string) (w : world) : world :=
  {| stdout := stdout w; logged := logged w ++ [s]; loaded := loaded w |}.

Definition note_load (p : string) (w : world) : world :=
  {| stdout := stdout w; logged := logged w; loaded := loaded w ++ [p] |}.

Definition empty_world : world :=
  {| stdout := ""; logged := []; loaded := [] |}.

(** [show_out += text]; adding a string to [None] is a [TypeError] *)
Definition iadd (show_out : option string) (text : string) : res (option string) :=
  match show_out with
  | Some s => Ret (Some (s +:+ text))
  | None => Raise (Exn TypeError "unsupported operand type(s) for +=" None)
  end.

(** Lines 207-211: how the collected outputs are joined. *)
Definition joined (brief : bool) (format_opts : option (gmap string pyval))
    (output : list string) : res string :=
  (plain <-
     (if brief then Ret true
      else match format_opts with
           | None => Ret false
           | Some d =>
               if dict_truthy d
               then (v <- getitem d "formatting" ;; Ret (truthy v))
               else Ret false
           end) ;;
   Ret (if plain then join "" output else join nl output))%py.

Section Show.
(** The tree engine, as [_show] uses it. *)
Context {tree node select_opts : Type}.
(** [Tree(str(p))] *)
Variable Tree : string -> res tree.
(** [tree.prune] applied to the select options: a generator, which
    yields nodes and may end by raising. *)
Variable prune : tree -> select_opts -> list node * option exn.
(** [node.show], with [brief] and the keyword arguments passed on *)
Variable show : node -> bool -> gmap string pyval -> res (option string).
Variable sources : node -> list string.
Variable color : string -> string -> string.
Variable listed : nat -> string -> string.

(** Lines 195-203: the text of one node. *)
Definition show_node (ctx : Context) (brief : bool)
    (format_opts : option (gmap string pyval)) (n : node) : res (option string) :=
  (show_out <-
     (if brief then show n true ∅
      else match format_opts with
           | None => Raise (Exn AssertionError "" None)
           | Some d => show n false d
           end) ;;
   if negb (debug ctx =? 0)%Z
   then fold_left
          (fun acc source => (o <- acc ;; iadd o (color (source +:+ nl) "blue")))
          (sources n) (Ret show_out)
   else Ret show_out)%py.

(** Lines 194-205: the inner loop over the nodes a tree yields. *)
Fixpoint show_nodes (ctx : Context) (brief : bool)
    (format_opts : option (gmap string pyval))
    (nodes : list node) (stop : option exn) (output : list string)
    : res (list string) :=
  match nodes with
  | [] => match stop with
          | None => Ret output
          | Some e => Raise e
          end
  | n :: rest =>
      (show_out <- show_node ctx brief format_opts n ;;
       show_nodes ctx brief format_opts rest stop
         (match show_out with
          | Some s => output ++ [s]
          | None => output
          end))%py
  end.

(** Lines 190-205: the body of the loop over the requested paths, for
    one path. *)
Definition show_path (ctx : Context) (select : select_opts)
    (format_opts : option (gmap string pyval)) (brief : bool)
    (p : string) (output : list string) (w : world)
    : res (list string) * world :=
  let w1 := if verbose ctx
            then info ("Checking " +:+ p +:+ " for metadata.") w else w in
  let w2 := note_load p w1 in
  match Tree p with
  | Raise e => (Raise e, w2)
  | Ret t =>
      let '(nodes, stop) := prune t select in
      (show_nodes ctx brief format_opts nodes stop output, w2)
  end.

(** Lines 189-205: the loop over the paths. *)
Fixpoint show_paths (ctx : Context) (select : select_opts)
    (format_opts : option (gmap string pyval)) (brief : bool)
    (paths : list string) (output : list string) (w : world)
    : res (list string) * world :=
  match paths with
  | [] => (Ret output, w)
  | p :: rest =>
      match show_path ctx select format_opts brief p output w with
      | (Raise e, w') => (Raise e, w')
      | (Ret output', w') =>
          show_paths ctx select format_opts brief rest output' w'
      end
  end.

(** [_show] *)
Definition _show (ctx : Context) (paths : list string) (select : select_opts)
    (format_opts : option (gmap string pyval)) (brief : bool) (w : world)
    : res unit * world :=
  match show_paths ctx select format_opts brief paths [] w with
  | (Raise e, w') => (Raise e, w')
  | (Ret output, w') =>
      match joined brief format_opts output with
      | Raise e => (Raise e, w')
      | Ret text =>
          let w2 := echo text w' in
          (Ret tt,
           if verbose ctx
           then info ("Found " +:+ listed (length output) "object" +:+ ".") w2
           else w2)
      end
  end.

End Show.

(** [CatchAllExceptions.__call__] (lines 118-124): [self.main] is run
    and what it raises is caught by [except Exception]. *)
Definition CatchAllExceptions_call {Args A : Type}
    (main : Args -> res A) (args : Args) : res A :=
  match main args with
  | Ret v => Ret v
  | Raise err =>
      if is_Exception (exn_cls err)
      then Raise (Exn GeneralError "fmf cli command failed" (Some err))
      else Raise err
  end.

(** The [init] command (lines 164-171), over a file system [FS] that
    [Tree.init] reads and writes. *)
Section Init.
Context {FS : Type}.
Variable Tree_init : string -> FS -> res string * FS.

Fixpoint init (paths : list string) (fs : FS) (out : string)
    : res unit * FS * string :=
  match paths with
  | [] => (Ret tt, fs, out)
  | p :: rest =>
      match Tree_init p fs with
      | (Raise e, fs') => (Raise e, fs', out)
      | (Ret root, fs') =>
          init rest fs'
            (out +:+ "Metadata tree '" +:+ root
                 +:+ "' successfully initialized." +:+ nl)
      end
  end.
End Init.

(** The process and the paths it can see.  Paths are taken resolved,
    the way [getcwd] returns them.  [dirs] are the directories the
    process can enter, [denied] the directories it may not enter,
    [files] the paths that exist and are no directory; [other] is
    whatever else belongs to the process. *)
Record process (R : Type) := {
  cwd : string;
  dirs : gset string;
  denied : gset string;
  files : gset string;
  other : R
}.
Arguments cwd {R} _.
Arguments dirs {R} _.
Arguments denied {R} _.
Arguments files {R} _.
Arguments other {R} _.

(** [os.getcwd]: fails when the current directory is no longer there *)
Definition getcwd {R} (st : process R) : res string :=
  if bool_decide (cwd st ∈ dirs st ∪ denied st)
  then Ret (cwd st)
  else Raise (Exn FileNotFoundError "" None).

Definition set_cwd {R} (d : string) (st : process R) : process R :=
  {| cwd := d; dirs := dirs st; denied := denied st; files := files st;
     other := other st |}.

(** The class of the [OSError] that [os.chdir] raises for a target the
    process cannot enter: by what is found at the path. *)
Definition chdir_error {R} (st : process R) (target : string) : exn_class :=
  if bool_decide (target ∈ denied st) then PermissionError
  else if bool_decide (target ∈ files st) then NotADirectoryError
  else FileNotFoundError.

(** [os.chdir]: fails unless the target is a directory the process can
    enter *)
Definition chdir {R} (target : string) (st : process R) : res (process R) :=
  if bool_decide (target ∈ dirs st)
  then Ret (set_cwd target st)
  else Raise (Exn (chdir_error st target) target None).

(** [with cd(target): body] (lines 217-232).  The generator runs up to
    its [yield] on entry; on exit, normal or not, its [finally] clause
    runs, and an exception of the body is raised again after it. *)
Definition cd {R A : Type} (target : string)
    (body : process R -> res A * process R) (st : process R)
    : res A * process R :=
  match getcwd st with
  | Raise e => (Raise e, st)
  | Ret curdir =>
      match chdir target st with
      | Raise e => (Raise e, st)
      | Ret st1 =>
          let '(r, st2) := body st1 in
          match chdir curdir st2 with
          | Raise e => (Raise e, st2)
          | Ret st3 => (r, st3)
          end
      end
  end.

(** What [node.show] returns for a node in lines 195-199: it is called
    briefly in brief mode, and with the format options otherwise. *)
Definition shown {node : Type}
    (show : node -> bool -> gmap string pyval -> res (option string))
    (brief : bool) (format_opts : option (gmap string pyval))
    (n : node) (r : res (option string)) : Prop :=
  (brief = true /\ show n true ∅ = r)
  \/ (brief = false /\ exists d, format_opts = Some d /\ show n false d = r).

(** What the loops of [_show] collect (lines 190-205), apart from
    what they do to the world: the outputs of the nodes of one path,
    and those of all paths in their order. *)
Section Collected.
Context {tree node select_opts : Type}.
Variable Tree : string -> res tree.
Variable prune : tree -> select_opts -> list node * option exn.
Variable show : node -> bool -> gmap string pyval -> res (option string).
Variable sources : node -> list string.
Variable color : string -> string -> string.

Definition path_output (ctx : Context) (select : select_opts)
    (format_opts : option (gmap string pyval)) (brief : bool) (p : string)
    : res (list string) :=
  match Tree p with
  | Raise e => Raise e
  | Ret t =>
      show_nodes show sources color ctx brief format_opts
        (fst (prune t select)) (snd (prune t select)) []
  end.

Fixpoint all_output (ctx : Context) (select : select_opts)
    (format_opts : option (gmap string pyval)) (brief : bool)
    (paths : list string) : res (list string) :=
  match paths with
  | [] => Ret []
  | p :: rest =>
      (here <- path_output ctx select format_opts brief p ;;
       later <- all_output ctx select format_opts brief rest ;;
       Ret (here ++ later))%py
  end.

(** The text of a node that [node.show] gives [s] for: in debug mode
    its source files follow. *)
Definition full_text (ctx : Context) (n : node) (s : string) : string :=
  if (debug ctx =? 0)%Z then s
  else s +:+ join "" (map (fun source => color (source +:+ nl) "blue") (sources n)).
End Collected.

(** The commands [ls] (lines 145-151) and [show] (lines 154-161):
    [_show] in brief mode without format options, and in full mode
    with the format group. *)
Section Commands.
Context {tree node select_opts : Type}.
Variable Tree : string -> res tree.
Variable prune : tree -> select_opts -> list node * option exn.
Variable node_show : node -> bool -> gmap string pyval -> res (option string).
Variable sources : node -> list string.
Variable color : string -> string -> string.
Variable listed : nat -> string -> string.

Definition ls (ctx : Context) (paths : list string) (select : select_opts)
    (w : world) : res unit * world :=
  _show Tree prune node_show sources color listed ctx paths select None true w.

Definition show (ctx : Context) (paths : list string) (select : select_opts)
    (format : gmap string pyval) (w : world) : res unit * world :=
  _show Tree prune node_show sources color listed ctx paths select
    (Some format) false w.
End Commands.

(** The option groups (lines 49-112).  A wrapper pops the options of
    its group out of the keyword arguments, one by one in the order of
    its tuple, and calls the wrapped function with the group under one
    name beside the keyword arguments that are left.  [V] is what a
    keyword argument holds; a dict is such a value too. *)
Section Options.
Context {V A : Type}.
Variable as_value : gmap string V -> V.

(** The dict comprehension over [kwargs.pop(opt)] (lines 70-73 and
    91-94): the group and the keyword arguments left. *)
Fixpoint pop_options (opts : list string) (kwargs : gmap string V)
    : res (gmap string V * gmap string V) :=
  match opts with
  | [] => Ret (∅, kwargs)
  | opt :: rest =>
      match kwargs !! opt with
      | None => Raise (Exn KeyError opt None)
      | Some v =>
          (popped <- pop_options rest (delete opt kwargs) ;;
           Ret (<[opt := v]> (fst popped), snd popped))%py
      end
  end.

(** The wrapper of a group called [name] (lines 68-74 and 89-95).  A
    keyword that is given twice in a call is a [TypeError]. *)
Definition grouped (name : string) (opts : list string)
    (func : gmap string V -> res A) (kwargs : gmap string V) : res A :=
  (popped <- pop_options opts kwargs ;;
   match snd popped !! name with
   | Some _ =>
       Raise (Exn TypeError "got multiple values for keyword argument" None)
   | None => func (<[name := as_value (fst popped)]> (snd popped))
   end)%py.

Definition select_names : list string :=
  ["keys"; "names"; "sources"; "filters"; "conditions"; "whole"].

Definition format_names : list string := ["formatting"; "values"].

Definition _select_options : (gmap string V -> res A) -> gmap string V -> res A :=
  grouped "select" select_names.

Definition _format_options : (gmap string V -> res A) -> gmap string V -> res A :=
  grouped "format" format_names.

(** Lines 108-110: the keyword arguments are passed on as they are. *)
Definition _utils_options (func : gmap string V -> res A)
    (kwargs : gmap string V) : res A :=
  func kwargs.
End Options.

(** The [clean] command (lines 174-182), over the file system [FS]
    that holds the cache: the directory is looked up (without creating
    it), removed, and reported; what either step raises is caught by
    [except Exception]. *)
Section Clean.
Context {FS : Type}.
Variable get_cache_directory : FS -> res string.
Variable clean_cache_directory : FS -> res unit * FS.

Definition clean (fs : FS) (out : string) : res unit * FS * string :=
  let attempt :=
    match get_cache_directory fs with
    | Raise err => (Raise err, fs, out)
    | Ret cache =>
        match clean_cache_directory fs with
        | (Raise err, fs') => (Raise err, fs', out)
        | (Ret _, fs') =>
            (Ret tt, fs',
             out +:+ "Cache directory '" +:+ cache +:+ "' has been removed." +:+ nl)
        end
    end in
  match attempt with
  | (Raise err, fs', out') =>
      if is_Exception (exn_cls err)
      then (Raise (Exn GeneralError "Unable to remove cache" (Some err)), fs', out')
      else (Raise err, fs', out')
  | done => done
  end.
End Clean.

End Cli.

(** ** [fmf.typing]: the data model *)

Module Typing.

(** [DataType]: [RawDataType] scalars ([None], [int], [float], [str],
    [bool]), [ListDataType] and [DictDataType].  A float is carried as
    its 64-bit pattern; a dict keeps its insertion order. *)
Inductive DataType :=
  | DNone
  | DInt (n : Z)
  | DFloat (bits : Z)
  | DStr (s : string)
  | DBool (b : bool)
  | DList (l : list DataType)
  | DDict (d : list (string * DataType)).

(** [TreeData]: [dict[str, DataType]] *)
Definition TreeData := list (string * DataType).

(** [isinstance(data, list)] *)
Definition is_list (d : DataType) : bool :=
  match d with DList _ => true | _ => false end.

(** [isinstance(data, dict)] *)
Definition is_dict (d : DataType) : bool :=
  match d with DDict _ => true | _ => false end.

End Typing.

Import Typing.

(** ** [fmf.normalize] *)

Module Normalize.

(** A type object: a class, or a [types.GenericAlias] such as
    [list[T]] with its [__origin__] and [__args__]. *)
Inductive pytype :=
  | Class (name : string)
  | GenericAlias (origin : string) (args : list pytype).

(** [[f(d) for d in data]]: left to right, the first exception ends it *)
Fixpoint comprehension {A B} (f : A -> res B) (data : list A) : res (list B) :=
  match data with
  | [] => Ret []
  | d :: rest =>
      (b <- f d ;; bs <- comprehension f rest ;; Ret (b :: bs))%py
  end.

(** What [normalize] returns: a list of objects or one object. *)
Inductive normalized (T : Type) :=
  | Objects (l : list T)
  | Object (o : T).
Arguments Objects {T} l.
Arguments Object {T} o.

Section Normalize.
(** [T]: the objects built; [X]: the extra positional and keyword
    arguments, passed on unchanged. *)
Context {T X : Type}.
(** calling a class: [cls(d, *args, **kwargs)] *)
Variable construct : pytype -> DataType -> X -> res T.

(** [data] as the list the comprehension runs over (lines 51-52) *)
Definition as_list (data : DataType) : list DataType :=
  match data with
  | DList l => l
  | d => [d]
  end.

(** A callable passed as [normalizer]: what calling it does, and the
    truth value the object has.  A function counts as true; an object
    with [__call__] has the truth value its class gives it. *)
Record callable := {
  truth_value : bool;
  call : DataType -> X -> res T
}.

(** [if normalizer:] (lines 53 and 57): the callable that is used, if
    any.  The default [None] counts as false, and so does a callable
    whose truth value is false. *)
Definition chosen (normalizer : option callable)
    : option (DataType -> X -> res T) :=
  match normalizer with
  | Some c => if truth_value c then Some (call c) else None
  | None => None
  end.

(** [normalize] (lines 49-59) *)
Definition normalize (cls : pytype) (data : DataType) (extra : X)
    (normalizer : option callable) : res (normalized T) :=
  match cls with
  | GenericAlias origin targs =>
      if String.eqb origin "list" then
        let data := as_list data in
        match chosen normalizer with
        | Some f =>
            (l <- comprehension (fun d => f d extra) data ;; Ret (Objects l))%py
        | None =>
            match targs with
            | [] => Raise (Exn (OtherError "IndexError") "tuple index out of range" None)
            | obj_cls :: _ =>
                (l <- comprehension (fun d => construct obj_cls d extra) data ;;
                 Ret (Objects l))%py
            end
        end
      else
        match chosen normalizer with
        | Some f => (o <- f data extra ;; Ret (Object o))%py
        | None => (o <- construct cls data extra ;; Ret (Object o))%py
        end
  | Class _ =>
      match chosen normalizer with
      | Some f => (o <- f data extra ;; Ret (Object o))%py
      | None => (o <- construct cls data extra ;; Ret (Object o))%py
      end
  end.

(** The converter of the elements: the normalizer when [if normalizer:]
    takes it, the element class otherwise. *)
Definition converter (obj_cls : pytype) (extra : X)
    (normalizer : option callable) : DataType -> res T :=
  match chosen normalizer with
  | Some f => fun d => f d extra
  | None => fun d => construct obj_cls d extra
  end.

End Normalize.

Arguments callable : clear implicits.
Arguments truth_value {T X} _.
Arguments call {T X} _.

End Normalize.

(** ** The merge engine *)

Module Merge.

(** How a child key is written: plain, with the append marker [+] or
    with the remove marker [-]. *)
Inductive marker := Plain | Append | Remove.

(** The key without its last character, and that character. *)
Fixpoint split_last (s : string) : option (string * ascii) :=
  match s with
  | EmptyString => None
  | String c rest =>
      match split_last rest with
      | None => Some (EmptyString, c)
      | Some (front, last) => Some (String c front, last)
      end
  end.

(** Modelled from the spec: the resolution of marker suffixes, which
    comes before the union by key: the stored key and the marker of a
    key as written (the merge of [fmf.Tree] is not among the
    sources). *)
Definition split_marker (written : string) : string * marker :=
  match split_last written with
  | Some (front, "+"%char) => (front, Append)
  | Some (front, "-"%char) => (front, Remove)
  | _ => (written, Plain)
  end.

(** Equality of values, by structure. *)
Fixpoint DataType_eqb (a b : DataType) {struct a} : bool :=
  match a, b with
  | DNone, DNone => true
  | DInt x, DInt y => (x =? y)%Z
  | DFloat x, DFloat y => (x =? y)%Z
  | DStr x, DStr y => String.eqb x y
  | DBool x, DBool y => Bool.eqb x y
  | DList x, DList y =>
      (fix all2 (l1 l2 : list DataType) {struct l1} : bool :=
         match l1, l2 with
         | [], [] => true
         | a1 :: t1, b1 :: t2 => DataType_eqb a1 b1 && all2 t1 t2
         | _, _ => false
         end) x y
  | DDict x, DDict y =>
      (fix all2 (l1 l2 : list (string * DataType)) {struct l1} : bool :=
         match l1, l2 with
         | [], [] => true
         | (k1, a1) :: t1, (k2, b1) :: t2 =>
             String.eqb k1 k2 && DataType_eqb a1 b1 && all2 t1 t2
         | _, _ => false
         end) x y
  | _, _ => false
  end.

(** [data.get(k)] on an ordered mapping: the first entry under [k] *)
Fixpoint lookup (k : string) (d : TreeData) : option DataType :=
  match d with
  | [] => None
  | (k', v) :: rest => if String.eqb k' k then Some v else lookup k rest
  end.

Definition has_key (k : string) (d : TreeData) : bool :=
  match lookup k d with Some _ => true | None => false end.

(** The child's entry for the stored key [k]: its marker and value. *)
Fixpoint find_child (k : string) (child : TreeData) : option (marker * DataType) :=
  match child with
  | [] => None
  | (written, cv) :: rest =>
      let '(stored, m) := split_marker written in
      if String.eqb stored k then Some (m, cv) else find_child k rest
  end.

(** The elements a child value lists: those of a sequence, or the
    value itself. *)
Definition listed (cv : DataType) : list DataType :=
  match cv with
  | DList l => l
  | v => [v]
  end.

Definition mentions (cs : list DataType) (x : DataType) : bool :=
  existsb (DataType_eqb x) cs.

(** The parent sequence without the elements the child lists. *)
Definition difference (ps cs : list DataType) : list DataType :=
  List.filter (fun x => negb (mentions cs x)) ps.

(** A parent mapping without the keys the child lists. *)
Definition without_keys (pd : TreeData) (cs : list DataType) : TreeData :=
  List.filter (fun '(k, _) => negb (mentions cs (DStr k))) pd.

(** Modelled from the spec: the rule for a key present in both, of
    the merge that is not among the sources: the resolved value, or
    [None] when the key is deleted.  [rec] merges two mappings one
    level deeper.  The spec is silent on the remove marker over a
    parent mapping; the listed keys are removed from it here. *)
Definition combine (rec : DataType -> DataType -> DataType)
    (m : marker) (pv cv : DataType) : option DataType :=
  let otherwise :=
    match pv, cv with
    | DDict _, DDict _ => Some (rec pv cv)
    | _, _ => Some cv
    end in
  match m with
  | Append =>
      match pv, cv with
      | DList ps, DList cs => Some (DList (ps ++ cs))
      | _, _ => otherwise
      end
  | Remove =>
      match pv with
      | DList ps => Some (DList (difference ps (listed cv)))
      | DDict pd => Some (DDict (without_keys pd (listed cv)))
      | _ => None
      end
  | Plain => otherwise
  end.

(** The parent's keys, in the parent's order: inherited unchanged when
    the child has no entry for them, combined otherwise. *)
Definition merge_parent (rec : DataType -> DataType -> DataType)
    (child : TreeData) : TreeData -> TreeData :=
  fix go (parent : TreeData) : TreeData :=
    match parent with
    | [] => []
    | (k, pv) :: rest =>
        match find_child k child with
        | None => (k, pv) :: go rest
        | Some (m, cv) =>
            match combine rec m pv cv with
            | Some v => (k, v) :: go rest
            | None => go rest
            end
        end
    end.

(** The keys present only in the child, in the child's order, taken
    as they are under their stored key (the first entry of a key
    counts). *)
Fixpoint child_only (parent : TreeData) (seen : list string) (child : TreeData)
    : TreeData :=
  match child with
  | [] => []
  | (written, cv) :: rest =>
      let '(stored, _) := split_marker written in
      if has_key stored parent || existsb (String.eqb stored) seen
      then child_only parent seen rest
      else (stored, cv) :: child_only parent (stored :: seen) rest
  end.

(** Modelled from the spec: two values under one key without a marker,
    in the merge that is not among the sources: mappings are merged,
    anything else is overridden by the child. *)
Fixpoint merge_value (pv cv : DataType) {struct pv} : DataType :=
  match pv, cv with
  | DDict pd, DDict cd =>
      DDict (merge_parent merge_value cd pd ++ child_only pd [] cd)
  | _, _ => cv
  end.

(** Modelled from the spec: [merge(parentData, childRaw)], key by key
    over the union of the keys of the parent and of the child (the
    merge of [fmf.Tree] is not among the sources). *)
Definition merge (parentData childRaw : TreeData) : TreeData :=
  merge_parent merge_value childRaw parentData ++ child_only parentData [] childRaw.

End Merge.

(** ** Nodes and the tree index *)

Module Index.

(** Modelled from the spec: a resolved node of the tree index (the
    class [fmf.Tree] is not among the sources). *)
Record Node := {
  path : string;
  data : TreeData;
  sources : list string;
  children : list string
}.

Definition is_leaf (n : Node) : bool :=
  match children n with [] => true | _ => false end.

End Index.

Import Index.

(** ** Condition expressions *)

Module Condition.

Inductive cmpop := Eq | Ne | Lt | Le | Gt | Ge.

(** Modelled from the spec: the expressions of conditions and format
    values: names bound by the node's attributes, indexing, relational
    and boolean operators, calls of allow-listed functions. *)
Inductive expr :=
  | Lit (v : DataType)
  | Name (x : string)
  | Index (e i : expr)
  | Not (e : expr)
  | And (a b : expr)
  | Or (a b : expr)
  | Cmp (op : cmpop) (a b : expr)
  | Call (f : string) (arg : expr).

(** Truth value of a result. *)
Definition truth (v : DataType) : bool :=
  match v with
  | DNone => false
  | DInt n => negb (n =? 0)%Z
  | DFloat bits => negb ((bits =? 0)%Z || (bits =? 2 ^ 63)%Z)
  | DStr s => negb (String.eqb s "")
  | DBool b => b
  | DList l => match l with [] => false | _ => true end
  | DDict d => match d with [] => false | _ => true end
  end.

Definition raise {A} (c : exn_class) (msg : string) : res A :=
  Raise (Exn c msg None).

(** [container[i]] *)
Definition subscript (container i : DataType) : res DataType :=
  match container, i with
  | DDict d, DStr k =>
      match Merge.lookup k d with
      | Some v => Ret v
      | None => raise KeyError k
      end
  | DDict _, _ => raise KeyError ""
  | DList l, DInt n =>
      if (n <? 0)%Z then raise (OtherError "IndexError") ""
      else match nth_error l (Z.to_nat n) with
           | Some v => Ret v
           | None => raise (OtherError "IndexError") ""
           end
  | _, _ => raise TypeError "not subscriptable"
  end.

Definition holds (op : cmpop) (c : comparison) : bool :=
  match op, c with
  | Lt, Datatypes.Lt | Le, Datatypes.Lt | Le, Datatypes.Eq
  | Gt, Datatypes.Gt | Ge, Datatypes.Gt | Ge, Datatypes.Eq => true
  | _, _ => false
  end.

Section Eval.
(** The allow-listed functions and the ordering of two values, which
    the spec leaves to the implementation. *)
Variable builtin : string -> DataType -> res DataType.
Variable order : DataType -> DataType -> res comparison.

(** Modelled from the spec: the evaluation of an expression against
    [data] as the variable namespace ([fmf.utils.evaluate] is not
    among the sources). *)
Fixpoint eval (data : TreeData) (e : expr) : res DataType :=
  match e with
  | Lit v => Ret v
  | Name x =>
      match Merge.lookup x data with
      | Some v => Ret v
      | None => raise (OtherError "NameError") x
      end
  | Index e i =>
      (c <- eval data e ;; k <- eval data i ;; subscript c k)%py
  | Not e => (v <- eval data e ;; Ret (DBool (negb (truth v))))%py
  | And a b => (v <- eval data a ;; if truth v then eval data b else Ret v)%py
  | Or a b => (v <- eval data a ;; if truth v then Ret v else eval data b)%py
  | Cmp op a b =>
      (x <- eval data a ;; y <- eval data b ;;
       match op with
       | Eq => Ret (DBool (Merge.DataType_eqb x y))
       | Ne => Ret (DBool (negb (Merge.DataType_eqb x y)))
       | _ => (c <- order x y ;; Ret (DBool (holds op c)))
       end)%py
  | Call f arg => (v <- eval data arg ;; builtin f v)%py
  end.

(** Modelled from the spec: a condition against a node, in the
    selection that is not among the sources: an evaluation error makes
    it false. *)
Definition condition_holds (data : TreeData) (e : expr) : bool :=
  match eval data e with
  | Ret v => truth v
  | Raise _ => false
  end.
End Eval.

End Condition.

(** ** The selection engine *)

Module Select.

(** Modelled from the spec: the selection request. *)
Record Criteria := {
  keys : list string;
  names : list string;
  sources : list string;
  filters : list string;
  conditions : list string;
  whole : bool
}.

(** [needle in haystack] *)
Fixpoint contains (needle haystack : string) : bool :=
  String.prefix needle haystack ||
  match haystack with
  | EmptyString => false
  | String _ rest => contains needle rest
  end.

(** [key:pattern], split at the first colon *)
Fixpoint split_filter (s : string) : option (string * string) :=
  match s with
  | EmptyString => None
  | String c rest =>
      if Ascii.eqb c ":"%char then Some (EmptyString, rest)
      else match split_filter rest with
           | Some (k, p) => Some (String c k, p)
           | None => None
           end
  end.

(** [[f(x) for x in l]] where [f] may fail with [FilterError] *)
Fixpoint collect {A B} (f : A -> option B) (what : string) (l : list A)
    : res (list B) :=
  match l with
  | [] => Ret []
  | x :: rest =>
      match f x with
      | None => Raise (Exn FilterError what None)
      | Some y => (ys <- collect f what rest ;; Ret (y :: ys))%py
      end
  end.

(** The criteria of a selection by one name pattern. *)
Definition by_name (pattern : string) : Criteria :=
  {| keys := []; names := [pattern]; sources := []; filters := [];
     conditions := []; whole := false |}.

Section Select.
(** The regular expression library, the stringification of values,
    the parser of condition expressions and what conditions are
    evaluated with. *)
Context {regex : Type}.
Variable compile : string -> option regex.
Variable search : regex -> string -> bool.
Variable matches : regex -> string -> bool.
Variable stringify : DataType -> string.
Variable parse : string -> option Condition.expr.
Variable builtin : string -> DataType -> res DataType.
Variable order : DataType -> DataType -> res comparison.

(** The criteria once checked at selection start. *)
Record Compiled := {
  c_keys : list string;
  c_names : list regex;
  c_sources : list string;
  c_filters : list (string * regex);
  c_conditions : list Condition.expr;
  c_whole : bool
}.

Definition compile_filter (f : string) : option (string * regex) :=
  match split_filter f with
  | None => None
  | Some (k, p) =>
      match compile p with
      | None => None
      | Some r => Some (k, r)
      end
  end.

(** An invalid regular expression or condition is a [FilterError],
    reported before any node is looked at. *)
Definition check (c : Criteria) : res Compiled :=
  (ns <- collect compile "invalid name" (names c) ;;
   fs <- collect compile_filter "invalid filter" (filters c) ;;
   cs <- collect parse "invalid condition" (conditions c) ;;
   Ret {| c_keys := keys c; c_names := ns; c_sources := sources c;
          c_filters := fs; c_conditions := cs; c_whole := whole c |})%py.

(** [keys]: all listed keys are present. *)
Definition pass_keys (c : Compiled) (n : Node) : bool :=
  forallb (fun k => Merge.has_key k (data n)) (c_keys c).

(** [names]: any expression is found in the path. *)
Definition pass_names (c : Compiled) (n : Node) : bool :=
  match c_names c with
  | [] => true
  | rs => existsb (fun r => search r (path n)) rs
  end.

(** [sources]: any source of the node contains a given string. *)
Definition pass_sources (c : Compiled) (n : Node) : bool :=
  match c_sources c with
  | [] => true
  | ss => existsb (fun s => existsb (contains s) (Index.sources n)) ss
  end.

(** One filter [key:pattern]. *)
Definition pass_filter (n : Node) (f : string * regex) : bool :=
  let '(k, r) := f in
  match Merge.lookup k (data n) with
  | None => false
  | Some (DList l) => existsb (fun v => matches r (stringify v)) l
  | Some v => matches r (stringify v)
  end.

(** [filters]: all filters pass. *)
Definition pass_filters (c : Compiled) (n : Node) : bool :=
  forallb (pass_filter n) (c_filters c).

(** [conditions]: all conditions hold. *)
Definition pass_conditions (c : Compiled) (n : Node) : bool :=
  forallb (Condition.condition_holds builtin order (data n)) (c_conditions c).

(** [whole]: only leaves are candidates unless the whole tree is
    asked for. *)
Definition candidate (c : Compiled) (n : Node) : bool :=
  c_whole c || is_leaf n.

(** The five kinds of criteria together. *)
Definition passes_all (c : Compiled) (n : Node) : bool :=
  pass_keys c n && pass_names c n && pass_sources c n
  && pass_filters c n && pass_conditions c n.

Definition selected (c : Compiled) (n : Node) : bool :=
  candidate c n && passes_all c n.

(** Modelled from the spec: [select(tree, criteria)], over the nodes
    of the index in pre-order ([Tree.prune] is not among the
    sources). *)
Definition select (tree : list Node) (c : Criteria) : res (list Node) :=
  (cc <- check c ;; Ret (List.filter (selected cc) tree))%py.
End Select.

End Select.

(** ** Loading a source hierarchy *)

Module Load.

(** Modelled from the spec: what the raw loader hands to the merge
    engine for one directory: the data file, its parsed mapping and
    the sub-directories (the loader of [fmf.Tree] is not among the
    sources). *)
Inductive Source :=
  | Dir (file : string) (raw : TreeData) (subdirs : list (string * Source)).

Definition subdirs_of (s : Source) : list (string * Source) :=
  let 'Dir _ _ subs := s in subs.

Definition raw_of (s : Source) : TreeData :=
  let 'Dir _ raw _ := s in raw.

(** Directory entries are taken in lexical order. *)
Fixpoint insert_by_name {A} (x : string * A) (l : list (string * A))
    : list (string * A) :=
  match l with
  | [] => [x]
  | y :: tl =>
      if String.leb (fst x) (fst y) then x :: y :: tl
      else y :: insert_by_name x tl
  end.

Definition sort_by_name {A} (l : list (string * A)) : list (string * A) :=
  fold_right insert_by_name [] l.

(** The path of a child: segments are separated by slashes, the root
    is [/]. *)
Definition child_path (parent name : string) : string :=
  if String.eqb parent "/" then "/" +:+ name else parent +:+ "/" +:+ name.

(** Provenance keeps the order of discovery, without duplicates. *)
Definition add_source (srcs : list string) (file : string) : list string :=
  if existsb (String.eqb file) srcs then srcs else srcs ++ [file].

(** An entry of the explicit work stack: a node still to be resolved. *)
Record Work := {
  w_path : string;
  w_inherited : TreeData;
  w_sources : list string;
  w_file : string;
  w_raw : TreeData;
  w_subdirs : list (string * Source)
}.

Fixpoint size (d : DataType) : nat :=
  match d with
  | DList l => S (list_sum (map size l))
  | DDict m => S (list_sum (map (fun kv => size (snd kv)) m))
  | _ => 1
  end.

Definition size_data (d : TreeData) : nat :=
  list_sum (map (fun kv => size (snd kv)) d).

(** The number of steps that a hierarchy needs at most. *)
Fixpoint weight (s : Source) : nat :=
  match s with
  | Dir _ raw subs =>
      S (size_data raw + list_sum (map (fun p => weight (snd p)) subs))
  end.

Definition work_weight (w : Work) : nat :=
  S (size_data (w_raw w) + list_sum (map (fun p => weight (snd p)) (w_subdirs w))).

Section Load.
(** The recognized top-level attribute names. *)
Variable is_attribute : string -> bool.

(** A mapping under a key that is not an attribute name defines a
    virtual child. *)
Definition is_virtual (entry : string * DataType) : bool :=
  negb (is_attribute (fst entry)) && is_dict (snd entry).

Definition attributes (raw : TreeData) : TreeData :=
  List.filter (fun entry => negb (is_virtual entry)) raw.

Fixpoint virtual_children (raw : TreeData) : list (string * TreeData) :=
  match raw with
  | [] => []
  | (k, v) :: rest =>
      match v with
      | DDict m =>
          if is_attribute k then virtual_children rest
          else (k, m) :: virtual_children rest
      | _ => virtual_children rest
      end
  end.

Definition dir_work (parent : string) (data : TreeData) (srcs : list string)
    (entry : string * Source) : Work :=
  let '(name, Dir file raw subs) := entry in
  {| w_path := child_path parent name; w_inherited := data;
     w_sources := srcs; w_file := file; w_raw := raw; w_subdirs := subs |}.

Definition virtual_work (parent : string) (data : TreeData)
    (srcs : list string) (file : string) (entry : string * TreeData) : Work :=
  let '(name, m) := entry in
  {| w_path := child_path parent name; w_inherited := data;
     w_sources := srcs; w_file := file; w_raw := m; w_subdirs := [] |}.

(** Modelled from the spec: one step of the load that is not among
    the sources.  It resolves one node: merges what it inherits with
    its own attributes, and lists its children: those of directories
    first, then the virtual ones, a directory winning a name
    collision. *)
Definition visit (w : Work) : Node * list Work :=
  let data := Merge.merge (w_inherited w) (attributes (w_raw w)) in
  let srcs := add_source (w_sources w) (w_file w) in
  let dirs := sort_by_name (w_subdirs w) in
  let virt :=
    List.filter
      (fun entry => negb (existsb (String.eqb (fst entry)) (map fst dirs)))
      (virtual_children (w_raw w)) in
  let kids :=
    map (dir_work (w_path w) data srcs) dirs
    ++ map (virtual_work (w_path w) data srcs (w_file w)) virt in
  ({| path := w_path w; data := data; sources := srcs;
      children := map w_path kids |}, kids).

(** Modelled from the spec: the traversal of the load that is not
    among the sources: one node per step from the top of the stack,
    its children pushed in their order, so that nodes come out
    depth-first, parents before children. *)
Fixpoint run (fuel : nat) (stack : list Work) (out : list Node)
    : option (list Node) :=
  match stack with
  | [] => Some out
  | w :: rest =>
      match fuel with
      | O => None
      | S fuel' =>
          let '(n, kids) := visit w in
          run fuel' (kids ++ rest) (out ++ [n])
      end
  end.

Definition root_work (s : Source) : Work :=
  let 'Dir file raw subs := s in
  {| w_path := "/"; w_inherited := []; w_sources := []; w_file := file;
     w_raw := raw; w_subdirs := subs |}.

(** Modelled from the spec: the load of a hierarchy into the tree
    index, by the traversal with an explicit work stack. *)
Definition load (s : Source) : option (list Node) :=
  run (weight s) [root_work s] [].

(** Follow child names down from a node still to be resolved. *)
Fixpoint descend (w : Work) (names : list string) {struct names}
    : option Work :=
  match names with
  | [] => Some w
  | name :: rest =>
      match List.find
              (fun kid => String.eqb (w_path kid) (child_path (w_path w) name))
              (snd (visit w)) with
      | Some kid => descend kid rest
      | None => None
      end
  end.

(** The path of the node reached through [names] from the root. *)
Definition path_of (names : list string) : string :=
  fold_left child_path names "/".
End Load.

End Load.

(** ** Tree roots: initialisation and the version marker *)

Module Root.

(** What a directory holds of a metadata tree: nothing, or the
    reserved metadata directory ([.fmf] in the tests), with the text
    of the version marker when the marker is there. *)
Inductive metadata :=
  | Uninitialized
  | Initialized (marker : option string).

(** Modelled from the spec: a directory that may hold a metadata
    tree: whether it can be written to, its metadata, and its data
    files (the file access of [fmf.Tree] is not among the sources). *)
Record root := {
  writable : bool;
  meta : metadata;
  source : Load.Source
}.

(** The text of the version marker, if the directory contains one. *)
Definition marker (r : root) : option string :=
  match meta r with
  | Uninitialized => None
  | Initialized text => text
  end.

Definition is_space (c : ascii) : bool :=
  Ascii.eqb c " "%char || Ascii.eqb c "010"%char
  || Ascii.eqb c "009"%char || Ascii.eqb c "013"%char.

Definition digit (c : ascii) : option Z :=
  let n := nat_of_ascii c in
  if (48 <=? n)%nat && (n <=? 57)%nat then Some (Z.of_nat (n - 48)) else None.

Fixpoint lstrip (s : list ascii) : list ascii :=
  match s with
  | c :: rest => if is_space c then lstrip rest else s
  | [] => []
  end.

Definition strip (s : list ascii) : list ascii :=
  rev (lstrip (rev (lstrip s))).

Fixpoint digits (acc : Z) (s : list ascii) : option Z :=
  match s with
  | [] => Some acc
  | c :: rest =>
      match digit c with
      | Some d => digits (10 * acc + d) rest
      | None => None
      end
  end.

(** The integer a marker holds, if it holds one. *)
Definition parse_int (s : string) : option Z :=
  match strip (list_ascii_of_string s) with
  | [] => None
  | c :: rest =>
      if Ascii.eqb c "-"%char then
        match rest with
        | [] => None
        | _ => option_map Z.opp (digits 0 rest)
        end
      else if Ascii.eqb c "+"%char then
        match rest with
        | [] => None
        | _ => digits 0 rest
        end
      else digits 0 (c :: rest)
  end.

Definition blank : root :=
  {| writable := true; meta := Uninitialized; source := Load.Dir "" [] [] |}.

Definition with_marker (text : string) (r : root) : root :=
  {| writable := writable r; meta := Initialized (Some text);
     source := source r |}.

Definition without_marker (r : root) : root :=
  {| writable := writable r; meta := Initialized None; source := source r |}.

(** Modelled from the spec: [Tree.init], the step from uninitialized
    to initialized with version 1 ([fmf.Tree] is not among the
    sources). *)
Definition Tree_init (p : string) (fs : gmap string root)
    : res string * gmap string root :=
  match fs !! p with
  | None => (Raise (Exn FileError "no such directory" None), fs)
  | Some r =>
      match marker r with
      | Some _ => (Raise (Exn FileError "already initialized" None), fs)
      | None =>
          if writable r
          then (Ret p, <[p := with_marker "1" r]> fs)
          else (Raise (Exn FileError "permission denied" None), fs)
      end
  end.

(** Modelled from the spec: the format version read when a tree is
    loaded (the load of [fmf.Tree] is not among the sources).  A path
    without metadata is a missing root, as the tests show for [/]. *)
Definition version (p : string) (fs : gmap string root) : res Z :=
  match fs !! p with
  | None => Raise (Exn FileError "missing root" None)
  | Some r =>
      match meta r with
      | Uninitialized => Raise (Exn FileError "missing root" None)
      | Initialized None => Raise (Exn FormatError "missing version" None)
      | Initialized (Some text) =>
          match parse_int text with
          | None => Raise (Exn FormatError "invalid version" None)
          | Some v =>
              if (v =? 1)%Z then Ret v
              else Raise (Exn FormatError "unsupported version" None)
          end
      end
  end.

(** Modelled from the spec: [Tree(path)], the load of the tree rooted
    at a path: the version marker is read, then the hierarchy is
    resolved. *)
Definition Tree (is_attribute : string -> bool) (fs : gmap string root)
    (p : string) : res (list Node) :=
  (_ <- version p fs ;;
   match fs !! p with
   | None => Raise (Exn FileError "missing root" None)
   | Some r =>
       match Load.load is_attribute (source r) with
       | Some index => Ret index
       | None => Raise (Exn (OtherError "RecursionError") "" None)
       end
   end)%py.

End Root.

(** * Concrete instances

    Small engines, matchers and inputs on which the definitions above
    are run. *)

Module Examples.

(** A tree engine for [_show]: the root [bad] cannot be loaded, any
    other root holds the two nodes [/a] and [/b]. *)
Definition toy_Tree (p : string) : res (list string) :=
  if String.eqb p "bad"
  then Raise (Exn FileError "Unable to find tree root" None)
  else Ret ["/a"; "/b"].

Definition toy_prune (t : list string) (_ : unit) : list string * option exn :=
  (t, None).

Definition toy_show (n : string) (brief : bool) (_ : gmap string pyval)
    : res (option string) :=
  Ret (Some (n +:+ nl)).

Definition toy_sources (n : string) : list string := [].

Definition toy_color (text _ : string) : string := text.

Definition toy_listed (count : nat) (what : string) : string := what.

Definition quiet : Cli.Context := {| Cli.verbose := false; Cli.debug := 0 |}.

Definition toy_show_cmd (Tree : string -> res (list string))
    (paths : list string) : res unit * Cli.world :=
  Cli._show Tree toy_prune toy_show toy_sources toy_color toy_listed
    quiet paths tt None true Cli.empty_world.

(** A process in [/home] that can also enter [/tmp], may not enter
    [/root] and sees the file [/etc/fstab]; and a body that changes
    the rest of the process state and then raises. *)
Definition home : Cli.process nat :=
  {| Cli.cwd := "/home"; Cli.dirs := {["/home"; "/tmp"]};
     Cli.denied := {["/root"]}; Cli.files := {["/etc/fstab"]};
     Cli.other := 0 |}.

Definition failing_body (st : Cli.process nat) : res unit * Cli.process nat :=
  (Raise (Exn ValueError "boom" None),
   {| Cli.cwd := Cli.cwd st; Cli.dirs := Cli.dirs st;
      Cli.denied := Cli.denied st; Cli.files := Cli.files st;
      Cli.other := S (Cli.other st) |}).

(** A callable object that counts as false, as a class with
    [__call__] and [__bool__] can make it. *)
Definition falsy_normalizer : Normalize.callable Z unit :=
  {| Normalize.truth_value := false;
     Normalize.call := fun _ _ => Ret (-1)%Z |}.

(** A function: it counts as true. *)
Definition negate : Normalize.callable Z unit :=
  {| Normalize.truth_value := true;
     Normalize.call := fun d _ =>
       match d with
       | DInt n => Ret (- n)%Z
       | _ => Raise (Exn TypeError "bad operand type for unary -" None)
       end |}.

(** Objects for [normalize]: integers, built by the class [int] from
    an integer or from a string of one digit. *)
Definition toy_construct (cls : Normalize.pytype) (d : DataType) (_ : unit) : res Z :=
  match cls, d with
  | Normalize.Class "int", DInt n => Ret n
  | Normalize.Class "int", DStr (String c "") =>
      match Root.digit c with
      | Some n => Ret n
      | None => Raise (Exn ValueError "invalid literal for int()" None)
      end
  | _, _ => Raise (Exn TypeError "" None)
  end.

Definition list_of_int : Normalize.pytype :=
  Normalize.GenericAlias "list" [Normalize.Class "int"].

(** A selection engine: patterns are literal texts, found anywhere in
    the subject; one condition text is understood. *)
Definition toy_compile (pattern : string) : option string := Some pattern.

Definition toy_stringify (v : DataType) : string :=
  match v with DStr text => text | _ => "" end.

Definition missing_condition : Condition.expr :=
  Condition.Cmp Condition.Eq
    (Condition.Index (Condition.Name "execute") (Condition.Lit (DStr "missing")))
    (Condition.Lit (DStr "x")).

Definition toy_parse (text : string) : option Condition.expr :=
  if String.eqb text "execute['missing'] == 'x'" then Some missing_condition
  else None.

Definition toy_builtin (f : string) (_ : DataType) : res DataType :=
  Raise (Exn (OtherError "NameError") f None).

Definition toy_order (_ _ : DataType) : res comparison :=
  Raise (Exn TypeError "" None).

Definition toy_check : Select.Criteria -> res (Select.Compiled (regex := string)) :=
  Select.check toy_compile toy_parse.

Definition toy_select : list Node -> Select.Criteria -> res (list Node) :=
  Select.select toy_compile Select.contains Select.contains toy_stringify
    toy_parse toy_builtin toy_order.

Definition toy_passes_all : Select.Compiled (regex := string) -> Node -> bool :=
  Select.passes_all Select.contains Select.contains toy_stringify
    toy_builtin toy_order.

Definition no_criteria : Select.Criteria :=
  {| Select.keys := []; Select.names := []; Select.sources := [];
     Select.filters := []; Select.conditions := []; Select.whole := false |}.

Definition two_tags : Select.Criteria :=
  {| Select.keys := []; Select.names := []; Select.sources := [];
     Select.filters := ["tags:Tier1"; "tags:TierSecurity"];
     Select.conditions := []; Select.whole := false |}.

Definition only_missing : Select.Criteria :=
  {| Select.keys := []; Select.names := []; Select.sources := [];
     Select.filters := [];
     Select.conditions := ["execute['missing'] == 'x'"]; Select.whole := false |}.

Definition leaf (p : string) (d : TreeData) : Node :=
  {| path := p; data := d; sources := ["/wget/main.fmf"]; children := [] |}.

Definition top : Node :=
  {| path := "/"; data := []; sources := ["/wget/main.fmf"];
     children := ["/download"] |}.

Definition download (tags : list string) : Node :=
  leaf "/download" [("tags", DList (map DStr tags))].

(** A hierarchy of nested directories, [levels] deep, with data in
    the innermost one only. *)
Fixpoint deep (levels : nat) : Load.Source :=
  match levels with
  | O => Load.Dir "/wget/recursion/main.fmf" [("depth", DInt 1000)] []
  | S k => Load.Dir "/wget/recursion/main.fmf" [] [("deep", deep k)]
  end.

Definition no_attribute (_ : string) : bool := false.

(** The innermost directory of [deep levels] as the traversal meets
    it. *)
Definition innermost (levels : nat) : Load.Work :=
  {| Load.w_path := Load.path_of (repeat "deep" levels);
     Load.w_inherited := [];
     Load.w_sources := ["/wget/recursion/main.fmf"];
     Load.w_file := "/wget/recursion/main.fmf";
     Load.w_raw := [("depth", DInt 1000)];
     Load.w_subdirs := [] |}.

(** A hierarchy with two directories, listed out of order, and one
    virtual child. *)
Definition small : Load.Source :=
  Load.Dir "/r/main.fmf"
    [("tag", DList [DStr "a"]);
     ("sub", DDict [("tag+", DList [DStr "b"])])]
    [("zeta", Load.Dir "/r/zeta/main.fmf" [("tag", DStr "z")] []);
     ("alpha", Load.Dir "/r/alpha/main.fmf" [("tag-", DList [DStr "a"])] [])].

(** A root that was initialized and whose marker was then overwritten. *)
Definition repo : gmap string Root.root := {["/repo" := Root.blank]}.

Definition corrupted : gmap string Root.root :=
  <["/repo" := Root.with_marker "bad" Root.blank]> repo.

(** A run in debug and verbose mode, a node with one source file, and
    a [node.show] that returns nothing. *)
Definition chatty : Cli.Context := {| Cli.verbose := true; Cli.debug := 1 |}.

Definition one_source (n : string) : list string := ["/wget/main.fmf"].

Definition silent_show (n : string) (brief : bool) (_ : gmap string pyval)
    : res (option string) :=
  Ret None.

(** Keyword arguments as the command line passes them: plain option
    values, and the dicts that the wrappers make of them. *)
Inductive kwvalue :=
  | Plain (v : pyval)
  | Group (d : gmap string pyval).

Definition as_group (g : gmap string kwvalue) : kwvalue :=
  Group (omap (fun v => match v with Plain p => Some p | Group _ => None end) g).

Definition show_kwargs : gmap string kwvalue :=
  list_to_map
    [("keys", Plain (PTuple ["depth"])); ("names", Plain (PTuple []));
     ("sources", Plain (PTuple [])); ("filters", Plain (PTuple []));
     ("conditions", Plain (PTuple [])); ("whole", Plain (PBool false));
     ("formatting", Plain (PStr "{0}")); ("values", Plain (PTuple ["name"]));
     ("paths", Plain (PTuple ["."]))].

Definition count_keys (kwargs : gmap string kwvalue) : res nat :=
  Ret (size kwargs).

(** A cache that is there or not: removing it when it is not there
    fails. *)
Definition toy_cache_directory (present : bool) : res string :=
  Ret "/var/tmp/fmf".

Definition toy_clean_cache (present : bool) : res unit * bool :=
  if present then (Ret tt, false)
  else (Raise (Exn FileNotFoundError "/var/tmp/fmf" None), present).

(** A body that removes the directory [/home]. *)
Definition removing_body (st : Cli.process nat) : res unit * Cli.process nat :=
  (Raise (Exn ValueError "boom" None),
   {| Cli.cwd := Cli.cwd st; Cli.dirs := Cli.dirs st ∖ {["/home"]};
      Cli.denied := Cli.denied st; Cli.files := Cli.files st;
      Cli.other := Cli.other st |}).

(** An initialisation over the list of the roots made so far. *)
Definition toy_init (p : string) (made : list string) : res string * list string :=
  if existsb (String.eqb p) made
  then (Raise (Exn FileError "already exists" None), made)
  else (Ret (p +:+ "/.fmf"), p :: made).

End Examples.

(** * Properties *)

(** ** Joining the rendered outputs *)

Lemma dict_truthy_lookup (d : gmap string pyval) (k : string) (v : pyval) :
  d !! k = Some v -> dict_truthy d = true.
Proof.
  intros Hk. unfold dict_truthy.
  rewrite bool_decide_eq_false_2; [reflexivity |].
  intros ->. rewrite lookup_empty in Hk. discriminate.
Qed.

Lemma joined_formatting (d : gmap string pyval) (v : pyval) (output : list string) :
  d !! "formatting" = Some v ->
  Cli.joined false (Some d) output
  = Ret (if truthy v then join "" output else join nl output).
Proof.
  intros Hk. unfold Cli.joined, getitem.
  rewrite (dict_truthy_lookup d _ v Hk), Hk. reflexivity.
Qed.

Lemma append_nl_assoc (a b c : string) : (a +:+ b) +:+ c = a +:+ (b +:+ c).
Proof.
  induction a as [| ch a IH]; [reflexivity |].
  change (String ch ((a +:+ b) +:+ c) = String ch (a +:+ (b +:+ c))).
  now rewrite IH.
Qed.

(** Outputs that end with a line terminator, joined with one more,
    are separated by an empty line. *)
Lemma join_blank_line (bodies : list string) :
  bodies <> [] ->
  join nl (map (fun b => b +:+ nl) bodies) = join (nl +:+ nl) bodies +:+ nl.
Proof.
  induction bodies as [| b rest IH]; [congruence | intros _].
  destruct rest as [| b' rest']; [reflexivity |].
  change (join nl (map (fun b => b +:+ nl) (b :: b' :: rest')))
    with ((b +:+ nl) +:+ nl +:+ join nl (map (fun b => b +:+ nl) (b' :: rest'))).
  rewrite IH by congruence.
  change (join (nl +:+ nl) (b :: b' :: rest'))
    with (b +:+ (nl +:+ nl) +:+ join (nl +:+ nl) (b' :: rest')).
  rewrite !append_nl_assoc. reflexivity.
Qed.

(** C5, as stated, fails: a template that was supplied but is empty
    does not make the outputs concatenate without separator. *)
Lemma joined_supplied_counterexample :
  ~ (forall (d : gmap string pyval) (template : string) (output : list string),
        d !! "formatting" = Some (PStr template) ->
        Cli.joined false (Some d) output = Ret (join "" output)).
Proof.
  intros H.
  specialize (H {["formatting" := PStr ""]} "" [""; ""]
                (lookup_singleton_eq _ _)).
  rewrite (joined_formatting _ (PStr "")) in H
    by apply lookup_singleton_eq.
  discriminate H.
Qed.

(** C5 (amended): the outputs are concatenated with no separator in
    brief mode and when a non-empty format template was supplied; in
    every other case (no format options, no template, an empty
    template) they are joined with one line terminator between
    consecutive outputs, which is an empty line between outputs that
    end with a line terminator. *)
Theorem joined_policy (brief : bool) (format_opts : option (gmap string pyval))
    (output : list string) :
  (brief = true -> Cli.joined brief format_opts output = Ret (join "" output))
  /\ (forall d template,
        brief = false -> format_opts = Some d ->
        d !! "formatting" = Some (PStr template) -> template <> "" ->
        Cli.joined brief format_opts output = Ret (join "" output))
  /\ (forall d,
        brief = false -> format_opts = Some d ->
        d !! "formatting" = Some PNone \/ d !! "formatting" = Some (PStr "") ->
        Cli.joined brief format_opts output = Ret (join nl output))
  /\ (brief = false -> format_opts = None \/ format_opts = Some ∅ ->
        Cli.joined brief format_opts output = Ret (join nl output))
  /\ (forall bodies,
        bodies <> [] -> output = map (fun b => b +:+ nl) bodies ->
        join nl output = join (nl +:+ nl) bodies +:+ nl).
Proof.
  repeat split.
  - intros ->. reflexivity.
  - intros d template -> -> Hk Hne.
    rewrite (joined_formatting d _ output Hk). simpl.
    apply String.eqb_neq in Hne. now rewrite Hne.
  - intros d -> -> [Hk | Hk]; now rewrite (joined_formatting d _ output Hk).
  - intros -> [-> | ->]; reflexivity.
  - intros bodies Hne ->. now apply join_blank_line.
Qed.

Lemma joined_policy_witness :
  Cli.joined true None ["/a" +:+ nl; "/b" +:+ nl]
    = Ret (join "" ["/a" +:+ nl; "/b" +:+ nl])
  /\ Cli.joined false (Some {["formatting" := PStr "foo"]}) ["foo"; "foo"]
    = Ret (join "" ["foo"; "foo"])
  /\ Cli.joined false (Some {["formatting" := PNone]}) ["/a" +:+ nl; "/b" +:+ nl]
    = Ret (join nl ["/a" +:+ nl; "/b" +:+ nl])
  /\ Cli.joined false None [] = Ret (join nl [])
  /\ join nl ["/a" +:+ nl; "/b" +:+ nl] = join (nl +:+ nl) ["/a"; "/b"] +:+ nl.
Proof.
  split; [| split; [| split; [| split]]].
  - apply (joined_policy true None); reflexivity.
  - apply (joined_policy false (Some {["formatting" := PStr "foo"]}) ["foo"; "foo"])
      with (d := {["formatting" := PStr "foo"]}) (template := "foo");
      [reflexivity | reflexivity | apply lookup_singleton_eq | discriminate].
  - apply (joined_policy false (Some {["formatting" := PNone]}))
      with (d := {["formatting" := PNone]});
      [reflexivity | reflexivity | left; apply lookup_singleton_eq].
  - apply (joined_policy false None []); [reflexivity | now left].
  - apply (joined_policy false None ["/a" +:+ nl; "/b" +:+ nl]) with (bodies := ["/a"; "/b"]);
      [discriminate | reflexivity].
Defined.

(** ** The loop over the requested root paths *)

Section ShowFacts.
Context {tree node select_opts : Type}.
Variable Tree : string -> res tree.
Variable prune : tree -> select_opts -> list node * option exn.
Variable show : node -> bool -> gmap string pyval -> res (option string).
Variable sources : node -> list string.
Variable color : string -> string -> string.
Variable listed : nat -> string -> string.
Variable ctx : Cli.Context.
Variable select : select_opts.
Variable format_opts : option (gmap string pyval).
Variable brief : bool.

Let show_path := Cli.show_path Tree prune show sources color ctx select format_opts brief.
Let show_paths := Cli.show_paths Tree prune show sources color ctx select format_opts brief.

Lemma show_path_world (p : string) (output : list string) (w : Cli.world) :
  Cli.stdout (snd (show_path p output w)) = Cli.stdout w
  /\ Cli.loaded (snd (show_path p output w)) = Cli.loaded w ++ [p].
Proof.
  unfold show_path, Cli.show_path.
  destruct (Tree p) as [t | e]; [destruct (prune t select) |];
    destruct (Cli.verbose ctx); simpl; auto.
Qed.


Lemma show_paths_world (paths : list string) (output : list string)
    (w : Cli.world) :
  Cli.stdout (snd (show_paths paths output w)) = Cli.stdout w
  /\ (forall output', fst (show_paths paths output w) = Ret output' ->
        Cli.loaded (snd (show_paths paths output w)) = Cli.loaded w ++ paths).
Proof.
  revert output w. induction paths as [| p paths IH]; intros output w.
  - simpl. split; [reflexivity | intros _ _; now rewrite app_nil_r].
  - unfold show_paths in *. simpl.
    pose proof (show_path_world p output w) as [Hout Hload].
    unfold show_path in *.
    destruct (Cli.show_path _ _ _ _ _ _ _ _ _ p output w) as [[output1 | e] w1];
      simpl in *.
    + destruct (IH output1 w1) as [IHout IHload]. split.
      * now rewrite IHout.
      * intros output' Hret. rewrite (IHload output' Hret), Hload.
        now rewrite <- app_assoc.
    + split; [assumption | intros ? [=]].
Qed.

End ShowFacts.



(** ** The catch-all entry point *)

(** C10, as stated, fails: [SystemExit], which is how the command line
    leaves on a wrong command, escapes as it is. *)
Lemma catch_all_counterexample :
  ~ (forall (main : unit -> res unit) (e : exn),
        Cli.CatchAllExceptions_call main tt = Raise e ->
        exn_cls e = GeneralError).
Proof.
  intros H.
  specialize (H (fun _ => Raise (Exn SystemExit "2" None))
                (Exn SystemExit "2" None) eq_refl).
  discriminate H.
Qed.

(** C10 (amended): what [main] returns is returned; an exception of
    class [Exception] raised by [main] is raised again as a
    [GeneralError] with the message [fmf cli command failed] and the
    original exception, class included, as its cause; an exception
    outside [Exception] ([SystemExit], [KeyboardInterrupt]) escapes
    unchanged. *)
Theorem catch_all_wraps {Args A : Type} (main : Args -> res A) (args : Args) :
  (forall v, main args = Ret v ->
     Cli.CatchAllExceptions_call main args = Ret v)
  /\ (forall err, main args = Raise err -> is_Exception (exn_cls err) = true ->
     Cli.CatchAllExceptions_call main args
     = Raise (Exn GeneralError "fmf cli command failed" (Some err)))
  /\ (forall err, main args = Raise err -> is_Exception (exn_cls err) = false ->
     Cli.CatchAllExceptions_call main args = Raise err)
  /\ (forall e, Cli.CatchAllExceptions_call main args = Raise e ->
     (exn_cls e = GeneralError /\ exn_msg e = "fmf cli command failed"
      /\ exists err, exn_cause e = Some err /\ main args = Raise err
                     /\ is_Exception (exn_cls err) = true)
     \/ (is_Exception (exn_cls e) = false /\ main args = Raise e)).
Proof.
  unfold Cli.CatchAllExceptions_call.
  destruct (main args) as [v | err] eqn:Hmain.
  - split; [| split; [| split]]; intros; congruence.
  - destruct (is_Exception (exn_cls err)) eqn:Hcls.
    + split; [| split; [| split]]; try (intros; congruence).
      intros e [= <-]. left. simpl. eauto 6.
    + split; [| split; [| split]]; try (intros; congruence).
      intros e [= <-]. right. auto.
Qed.

Lemma catch_all_wraps_witness :
  Cli.CatchAllExceptions_call
    (fun _ : unit => @Raise unit (Exn FormatError "Invalid version format" None)) tt
  = Raise (Exn GeneralError "fmf cli command failed"
             (Some (Exn FormatError "Invalid version format" None))).
Proof.
  destruct (catch_all_wraps
              (fun _ : unit => @Raise unit (Exn FormatError "Invalid version format" None)) tt)
    as (_ & Hwrap & _).
  apply Hwrap; reflexivity.
Defined.

(** ** The [cd] context manager *)

Lemma getcwd_ok {R} (st : Cli.process R) :
  Cli.cwd st ∈ Cli.dirs st ∪ Cli.denied st -> Cli.getcwd st = Ret (Cli.cwd st).
Proof. intros H. unfold Cli.getcwd. now rewrite bool_decide_eq_true_2. Qed.

Lemma getcwd_gone {R} (st : Cli.process R) :
  Cli.cwd st ∉ Cli.dirs st ∪ Cli.denied st ->
  Cli.getcwd st = Raise (Exn FileNotFoundError "" None).
Proof. intros H. unfold Cli.getcwd. now rewrite bool_decide_eq_false_2. Qed.

Lemma chdir_ok {R} (target : string) (st : Cli.process R) :
  target ∈ Cli.dirs st -> Cli.chdir target st = Ret (Cli.set_cwd target st).
Proof. intros H. unfold Cli.chdir. now rewrite bool_decide_eq_true_2. Qed.

Lemma chdir_fails {R} (target : string) (st : Cli.process R) :
  target ∉ Cli.dirs st ->
  Cli.chdir target st = Raise (Exn (Cli.chdir_error st target) target None).
Proof. intros H. unfold Cli.chdir. now rewrite bool_decide_eq_false_2. Qed.


(** When the directory that was current on entry cannot be entered any
    more as the body exits, the [finally] clause itself raises and the
    working directory stays where the body left it. *)
Lemma cd_restore_fails {R A} (target : string)
    (body : Cli.process R -> res A * Cli.process R)
    (st st2 : Cli.process R) (r : res A) :
  Cli.cwd st ∈ Cli.dirs st ∪ Cli.denied st ->
  target ∈ Cli.dirs st ->
  body (Cli.set_cwd target st) = (r, st2) ->
  Cli.cwd st ∉ Cli.dirs st2 ->
  Cli.cd target body st
  = (Raise (Exn (Cli.chdir_error st2 (Cli.cwd st)) (Cli.cwd st) None), st2).
Proof.
  intros Hcwd Ht Hbody Hgone. unfold Cli.cd.
  now rewrite (getcwd_ok _ Hcwd), (chdir_ok _ _ Ht), Hbody, (chdir_fails _ _ Hgone).
Qed.

(** C9 (amended): for a process whose working directory exists and a
    target it can enter, the body runs in the state of entry with only
    the working directory changed, to the target; when the body exits,
    by returning or by raising, and the directory of entry can be
    entered at that moment, [cd] hands on the outcome of the body and
    the state the body left with only the working directory changed,
    back to the one of entry. *)
Theorem cd_restores {R A} (target : string)
    (body : Cli.process R -> res A * Cli.process R)
    (st st2 : Cli.process R) (r : res A) :
  Cli.cwd st ∈ Cli.dirs st ∪ Cli.denied st ->
  target ∈ Cli.dirs st ->
  body (Cli.set_cwd target st) = (r, st2) ->
  Cli.cwd st ∈ Cli.dirs st2 ->
  Cli.cd target body st = (r, Cli.set_cwd (Cli.cwd st) st2)
  /\ Cli.cwd (Cli.set_cwd target st) = target
  /\ Cli.other (Cli.set_cwd target st) = Cli.other st
  /\ Cli.dirs (Cli.set_cwd target st) = Cli.dirs st
  /\ Cli.denied (Cli.set_cwd target st) = Cli.denied st
  /\ Cli.files (Cli.set_cwd target st) = Cli.files st
  /\ Cli.cwd (snd (Cli.cd target body st)) = Cli.cwd st
  /\ Cli.other (snd (Cli.cd target body st)) = Cli.other st2
  /\ Cli.dirs (snd (Cli.cd target body st)) = Cli.dirs st2
  /\ Cli.denied (snd (Cli.cd target body st)) = Cli.denied st2
  /\ Cli.files (snd (Cli.cd target body st)) = Cli.files st2.
Proof.
  intros Hcwd Ht Hbody Hback.
  assert (Cli.cd target body st = (r, Cli.set_cwd (Cli.cwd st) st2)) as Hcd.
  { unfold Cli.cd.
    now rewrite (getcwd_ok _ Hcwd), (chdir_ok _ _ Ht), Hbody, (chdir_ok _ _ Hback). }
  rewrite Hcd. repeat split.
Qed.

Lemma cd_restores_witness :
  Cli.cd "/tmp" Examples.failing_body Examples.home
  = (Raise (Exn ValueError "boom" None),
     {| Cli.cwd := "/home"; Cli.dirs := {["/home"; "/tmp"]};
        Cli.denied := {["/root"]}; Cli.files := {["/etc/fstab"]};
        Cli.other := 1 |}).
Proof.
  refine (proj1 (cd_restores "/tmp" Examples.failing_body Examples.home
           {| Cli.cwd := "/tmp"; Cli.dirs := {["/home"; "/tmp"]};
              Cli.denied := {["/root"]}; Cli.files := {["/etc/fstab"]};
              Cli.other := 1 |}
           (Raise (Exn ValueError "boom" None)) _ _ _ _)).
  - simpl. set_solver.
  - simpl. set_solver.
  - reflexivity.
  - simpl. set_solver.
Defined.

(** C9, as stated, fails: a body can remove the directory that was current on
    entry; the [chdir] of the [finally] clause then raises and the
    working directory is not the one from before entry. *)
Lemma cd_restores_counterexample :
  ~ (forall body : Cli.process nat -> res unit * Cli.process nat,
       Cli.cwd (snd (Cli.cd "/tmp" body Examples.home)) = Cli.cwd Examples.home).
Proof.
  intros H. specialize (H Examples.removing_body).
  rewrite (cd_restore_fails "/tmp" Examples.removing_body Examples.home
             (snd (Examples.removing_body (Cli.set_cwd "/tmp" Examples.home)))
             (Raise (Exn ValueError "boom" None))) in H.
  - simpl in H. discriminate H.
  - simpl. set_solver.
  - simpl. set_solver.
  - reflexivity.
  - simpl. set_solver.
Qed.

(** ** [normalize] on list-typed targets *)

Section NormalizeFacts.
Context {T X : Type}.
Variable construct : Normalize.pytype -> DataType -> X -> res T.

Lemma comprehension_ret {A B} (f : A -> res B) (data : list A) (l : list B) :
  Normalize.comprehension f data = Ret l -> Forall2 (fun d o => f d = Ret o) data l.
Proof.
  revert l. induction data as [| d rest IH]; intros l; simpl.
  - intros [= <-]. constructor.
  - destruct (f d) as [b | e] eqn:Hd; simpl; [| discriminate].
    destruct (Normalize.comprehension f rest) as [bs | e]; simpl; [| discriminate].
    intros [= <-]. constructor; [assumption | now apply IH].
Qed.

Lemma comprehension_total {A B} (f : A -> res B) (data : list A) :
  (forall d, In d data -> exists o, f d = Ret o) ->
  exists l, Normalize.comprehension f data = Ret l.
Proof.
  induction data as [| d rest IH]; intros Hall; simpl.
  - eauto.
  - destruct (Hall d (or_introl eq_refl)) as [o ->].
    destruct IH as [l ->]; [intros; apply Hall; now right |].
    simpl. eauto.
Qed.

Lemma normalize_on_list (obj_cls : Normalize.pytype) (more : list Normalize.pytype)
    (data : DataType) (extra : X) (normalizer : option (Normalize.callable T X)) :
  Normalize.normalize construct (Normalize.GenericAlias "list" (obj_cls :: more))
    data extra normalizer
  = (l <- Normalize.comprehension (Normalize.converter construct obj_cls extra normalizer)
            (Normalize.as_list data) ;;
     Ret (Normalize.Objects l))%py.
Proof.
  unfold Normalize.normalize, Normalize.converter. simpl.
  now destruct (Normalize.chosen normalizer).
Qed.

Lemma converter_truthy (obj_cls : Normalize.pytype) (extra : X)
    (c : Normalize.callable T X) :
  Normalize.truth_value c = true ->
  Normalize.converter construct obj_cls extra (Some c)
  = fun d => Normalize.call c d extra.
Proof. intros Ht. unfold Normalize.converter, Normalize.chosen. now rewrite Ht. Qed.

Lemma converter_falsy (obj_cls : Normalize.pytype) (extra : X)
    (c : Normalize.callable T X) :
  Normalize.truth_value c = false ->
  Normalize.converter construct obj_cls extra (Some c)
  = fun d => construct obj_cls d extra.
Proof. intros Ht. unfold Normalize.converter, Normalize.chosen. now rewrite Ht. Qed.

(** C8 (amended): for a target [list[T]], [normalize] runs the
    converter over the elements of the data, a non-list being taken as
    the list of itself.  The converter is the normalizer when one is
    given and counts as true, as every function does; it is the class
    [T] when none is given and also when the one given counts as
    false.  So a non-list [d] and [[d]] give the same; what is
    returned is a list, as long as the input list (1 for a non-list),
    of the converted elements; and it is returned whenever the
    converter returns on every element (an exception of the converter
    is the only way out otherwise). *)
Theorem normalize_list (obj_cls : Normalize.pytype) (more : list Normalize.pytype)
    (data : DataType) (extra : X) (normalizer : option (Normalize.callable T X)) :
  let cls := Normalize.GenericAlias "list" (obj_cls :: more) in
  let convert := Normalize.converter construct obj_cls extra normalizer in
  (convert = match normalizer with
             | Some c => if Normalize.truth_value c
                         then fun d => Normalize.call c d extra
                         else fun d => construct obj_cls d extra
             | None => fun d => construct obj_cls d extra
             end)
  /\ (is_list data = false ->
     Normalize.normalize construct cls data extra normalizer
     = Normalize.normalize construct cls (DList [data]) extra normalizer)
  /\ (is_list data = false -> length (Normalize.as_list data) = 1)
  /\ (forall out,
        Normalize.normalize construct cls data extra normalizer = Ret out ->
        exists l, out = Normalize.Objects l
                  /\ length l = length (Normalize.as_list data)
                  /\ Forall2 (fun d o => convert d = Ret o) (Normalize.as_list data) l)
  /\ ((forall d, In d (Normalize.as_list data) -> exists o, convert d = Ret o) ->
      exists l, Normalize.normalize construct cls data extra normalizer
                = Ret (Normalize.Objects l))
  /\ (forall e,
        Normalize.normalize construct cls data extra normalizer = Raise e ->
        exists d, In d (Normalize.as_list data) /\ convert d = Raise e).
Proof.
  intros cls convert. unfold cls.
  split; [| split; [| split; [| split; [| split]]]].
  - unfold convert, Normalize.converter, Normalize.chosen.
    destruct normalizer as [c |]; [destruct (Normalize.truth_value c) |]; reflexivity.
  - intros Hnl. rewrite !normalize_on_list.
    destruct data; try discriminate; reflexivity.
  - intros Hnl. destruct data; try discriminate; reflexivity.
  - intros out. rewrite normalize_on_list. fold convert.
    destruct (Normalize.comprehension convert (Normalize.as_list data)) as [l | e] eqn:Hc;
      simpl; [| discriminate].
    intros [= <-]. exists l. apply comprehension_ret in Hc.
    split; [reflexivity | split; [| assumption]].
    symmetry. exact (Forall2_length _ _ _ Hc).
  - intros Hall. rewrite normalize_on_list. fold convert.
    destruct (comprehension_total convert _ Hall) as [l ->]. simpl. eauto.
  - intros e. rewrite normalize_on_list. fold convert.
    generalize (Normalize.as_list data). intros items.
    induction items as [| d rest IH]; simpl; [discriminate |].
    destruct (convert d) as [b | e'] eqn:Hd; simpl.
    + destruct (Normalize.comprehension convert rest) as [bs | e'']; simpl;
        [discriminate |].
      intros [= ->]. destruct IH as (d' & Hin & Hd'); [reflexivity |]. eauto.
    + intros [= ->]. eauto.
Qed.
End NormalizeFacts.

Lemma normalize_list_witness :
  Normalize.normalize Examples.toy_construct Examples.list_of_int (DStr "7") tt None
  = Normalize.normalize Examples.toy_construct Examples.list_of_int
      (DList [DStr "7"]) tt None
  /\ (exists l,
      Normalize.normalize Examples.toy_construct Examples.list_of_int
        (DList [DInt 3; DStr "7"]) tt None = Ret (Normalize.Objects l))
  /\ (exists l,
      Normalize.normalize Examples.toy_construct Examples.list_of_int
        (DList [DInt 3; DInt 7]) tt (Some Examples.negate)
      = Ret (Normalize.Objects l)).
Proof.
  split; [| split].
  - apply (normalize_list Examples.toy_construct (Normalize.Class "int") []
             (DStr "7") tt None). reflexivity.
  - apply (normalize_list Examples.toy_construct (Normalize.Class "int") []
             (DList [DInt 3; DStr "7"]) tt None).
    intros d [<- | [<- | []]]; eexists; reflexivity.
  - apply (normalize_list Examples.toy_construct (Normalize.Class "int") []
             (DList [DInt 3; DInt 7]) tt (Some Examples.negate)).
    intros d [<- | [<- | []]]; eexists; reflexivity.
Defined.

(** C8, as stated, fails: a normalizer that is given but counts as false is
    not used; the elements are converted by the class. *)
Lemma normalize_list_counterexample :
  ~ (forall (c : Normalize.callable Z unit) (data : DataType),
       Normalize.normalize Examples.toy_construct Examples.list_of_int
         data tt (Some c)
       = (l <- Normalize.comprehension (fun d => Normalize.call c d tt)
                 (Normalize.as_list data) ;;
          Ret (Normalize.Objects l))%py).
Proof.
  intros H.
  specialize (H Examples.falsy_normalizer (DList [DStr "7"])).
  discriminate H.
Qed.

(** ** The merge markers *)











(** ** Selection *)

Section SelectFacts.
Context {regex : Type}.
Variable compile : string -> option regex.
Variable search : regex -> string -> bool.
Variable matches : regex -> string -> bool.
Variable stringify : DataType -> string.
Variable parse : string -> option Condition.expr.
Variable builtin : string -> DataType -> res DataType.
Variable order : DataType -> DataType -> res comparison.

Let check := Select.check compile parse.
Let select := Select.select compile search matches stringify parse builtin order.
Let selected := Select.selected search matches stringify builtin order.
Let passes_all := Select.passes_all search matches stringify builtin order.
Let pass_filters := Select.pass_filters (regex := regex) matches stringify.
Let pass_filter := Select.pass_filter (regex := regex) matches stringify.
Let pass_conditions := Select.pass_conditions (regex := regex) builtin order.
Let pass_names := Select.pass_names search.

Lemma collect_ret {A B} (f : A -> option B) (what : string) (l : list A)
    (ys : list B) :
  Select.collect f what l = Ret ys -> Forall2 (fun x y => f x = Some y) l ys.
Proof.
  revert ys. induction l as [| x l IH]; intros ys; simpl.
  - intros [= <-]. constructor.
  - destruct (f x) as [y |] eqn:Hx; [| discriminate].
    destruct (Select.collect f what l) as [ys' | e]; simpl; [| discriminate].
    intros [= <-]. constructor; [assumption | now apply IH].
Qed.

Lemma collect_raise {A B} (f : A -> option B) (what : string) (l : list A)
    (e : exn) :
  Select.collect f what l = Raise e -> e = Exn FilterError what None.
Proof.
  induction l as [| x l IH]; simpl; [discriminate |].
  destruct (f x); [| congruence].
  destruct (Select.collect f what l); simpl; [discriminate |].
  intros [= <-]. now apply IH.
Qed.

(** What the check at selection start keeps of the criteria. *)
Lemma check_ret (crit : Select.Criteria) (cc : Select.Compiled) :
  check crit = Ret cc ->
  Select.c_keys cc = Select.keys crit
  /\ Forall2 (fun x y => compile x = Some y) (Select.names crit) (Select.c_names cc)
  /\ Select.c_sources cc = Select.sources crit
  /\ Forall2 (fun x y => Select.compile_filter compile x = Some y)
       (Select.filters crit) (Select.c_filters cc)
  /\ Forall2 (fun x y => parse x = Some y)
       (Select.conditions crit) (Select.c_conditions cc)
  /\ Select.c_whole cc = Select.whole crit.
Proof.
  unfold check, Select.check.
  destruct (Select.collect compile _ _) as [ns | e] eqn:Hn; simpl; [| discriminate].
  destruct (Select.collect (Select.compile_filter compile) _ _) as [fs | e] eqn:Hf;
    simpl; [| discriminate].
  destruct (Select.collect parse _ _) as [cs | e] eqn:Hc; simpl; [| discriminate].
  intros [= <-]. simpl.
  repeat split; eauto using collect_ret.
Qed.

Lemma check_raise (crit : Select.Criteria) (e : exn) :
  check crit = Raise e -> exn_cls e = FilterError.
Proof.
  unfold check, Select.check.
  destruct (Select.collect compile _ _) as [ns | e1] eqn:Hn; simpl.
  - destruct (Select.collect (Select.compile_filter compile) _ _) as [fs | e2] eqn:Hf;
      simpl.
    + destruct (Select.collect parse _ _) as [cs | e3] eqn:Hc; simpl; [discriminate |].
      intros [= <-]. now rewrite (collect_raise _ _ _ _ Hc).
    + intros [= <-]. now rewrite (collect_raise _ _ _ _ Hf).
  - intros [= <-]. now rewrite (collect_raise _ _ _ _ Hn).
Qed.

Lemma select_eq (tree : list Node) (crit : Select.Criteria) :
  select tree crit
  = match check crit with
    | Ret cc => Ret (List.filter (selected cc) tree)
    | Raise e => Raise e
    end.
Proof. reflexivity. Qed.

Lemma Forall2_In_l {A B} (R : A -> B -> Prop) (l : list A) (l' : list B) (x : A) :
  Forall2 R l l' -> In x l -> exists y, In y l' /\ R x y.
Proof.
  induction 1 as [| a b l l' Hab _ IH]; intros Hin; [destruct Hin |].
  destruct Hin as [<- | Hin].
  - exists b. split; [now left | assumption].
  - destruct (IH Hin) as (y & Hy & Hxy). exists y. split; [now right | assumption].
Qed.

Lemma Forall2_nil_l {A B} (R : A -> B -> Prop) (l : list B) :
  Forall2 R [] l -> l = [].
Proof. now inversion 1. Qed.

Lemma missing_name_raises (d : TreeData) (x : string) (i : Condition.expr)
    (op : Condition.cmpop) (b : Condition.expr) :
  Merge.lookup x d = None ->
  Condition.eval builtin order d
    (Condition.Cmp op (Condition.Index (Condition.Name x) i) b)
  = Raise (Exn (OtherError "NameError") x None).
Proof. intros Hx. simpl. now rewrite Hx. Qed.
Lemma condition_fails_selected (cc : Select.Compiled) (n : Node) (e : Condition.expr) :
  In e (Select.c_conditions cc) ->
  Condition.condition_holds builtin order (data n) e = false ->
  selected cc n = false.
Proof.
  intros Hin Hfalse.
  assert (pass_conditions cc n = false) as Hpc.
  { unfold pass_conditions, Select.pass_conditions.
    apply not_true_is_false. intros Hall.
    rewrite forallb_forall in Hall. specialize (Hall e Hin). congruence. }
  unfold selected, Select.selected, Select.passes_all.
  fold pass_conditions. rewrite Hpc. now rewrite !andb_false_r.
Qed.

Lemma filter_drop {A} (f : A -> bool) (l1 l2 : list A) (x : A) :
  f x = false -> List.filter f (l1 ++ x :: l2) = List.filter f (l1 ++ l2).
Proof.
  intros Hx. rewrite !List.filter_app. simpl. now rewrite Hx.
Qed.

(** C2: when the evaluation of a condition of the criteria raises on
    the data of a node, the condition is false for that node, the
    node is not selected, the selection is what it is over the other
    nodes, and it returns (the only errors of a selection are those
    of the check of the criteria at its start); the condition
    [execute["missing"] == "x"] raises, and so is false, on data
    without the key [execute]. *)
Theorem condition_error_excludes (tree1 tree2 : list Node) (n : Node)
    (crit : Select.Criteria) (text : string) (e : Condition.expr) (err : exn) :
  In text (Select.conditions crit) ->
  parse text = Some e ->
  Condition.eval builtin order (data n) e = Raise err ->
  Condition.condition_holds builtin order (data n) e = false
  /\ select (tree1 ++ n :: tree2) crit = select (tree1 ++ tree2) crit
  /\ (forall l, select (tree1 ++ n :: tree2) crit = Ret l -> ~ In n l)
  /\ (forall cc, check crit = Ret cc ->
        select (tree1 ++ n :: tree2) crit
        = Ret (List.filter (selected cc) (tree1 ++ tree2)))
  /\ (forall d, Merge.lookup "execute" d = None ->
        Condition.condition_holds builtin order d
          (Condition.Cmp Condition.Eq
             (Condition.Index (Condition.Name "execute")
                (Condition.Lit (DStr "missing")))
             (Condition.Lit (DStr "x"))) = false).
Proof.
  intros Hin Hparse Heval.
  assert (Condition.condition_holds builtin order (data n) e = false) as Hfalse.
  { unfold Condition.condition_holds. now rewrite Heval. }
  assert (forall cc, check crit = Ret cc -> selected cc n = false) as Hout.
  { intros cc Hcc.
    destruct (check_ret crit cc Hcc) as (_ & _ & _ & _ & Hconds & _).
    destruct (Forall2_In_l _ _ _ _ Hconds Hin) as (e' & He' & Hp).
    assert (e' = e) as -> by congruence.
    now apply condition_fails_selected with (e := e). }
  split; [exact Hfalse | split; [| split; [| split]]].
  - rewrite !select_eq. destruct (check crit) as [cc | e0] eqn:Hcc; [| reflexivity].
    now rewrite (filter_drop _ _ _ _ (Hout cc eq_refl)).
  - intros l. rewrite select_eq.
    destruct (check crit) as [cc | e0] eqn:Hcc; [| discriminate].
    intros [= <-] Hn. apply filter_In in Hn as [_ Hn].
    rewrite (Hout cc eq_refl) in Hn. discriminate.
  - intros cc Hcc. rewrite select_eq, Hcc.
    now rewrite (filter_drop _ _ _ _ (Hout cc Hcc)).
  - intros d Hd. unfold Condition.condition_holds.
    now rewrite (missing_name_raises d "execute" _ _ _ Hd).
Qed.

(** C3 (amended): among the candidates (the leaves, or every node when
    the whole tree is asked for), a node is selected if and only if
    it passes all five kinds of criteria; all filters must pass; an
    empty criterion restricts nothing.  A selection fails only with
    the [FilterError] of the check of its criteria. *)
Theorem selection_is_conjunction (tree : list Node) (crit : Select.Criteria) :
  (forall e, check crit = Raise e ->
     select tree crit = Raise e /\ exn_cls e = FilterError)
  /\ (forall cc, check crit = Ret cc ->
     select tree crit = Ret (List.filter (selected cc) tree)
     /\ (forall n, In n (List.filter (selected cc) tree) <->
           In n tree /\ Select.candidate cc n = true
           /\ Select.pass_keys cc n = true /\ pass_names cc n = true
           /\ Select.pass_sources cc n = true /\ pass_filters cc n = true
           /\ pass_conditions cc n = true)
     /\ (forall n, pass_filters cc n = true <->
           forall f, In f (Select.c_filters cc) -> pass_filter n f = true)
     /\ (forall n, Select.keys crit = [] -> Select.pass_keys cc n = true)
     /\ (forall n, Select.names crit = [] -> pass_names cc n = true)
     /\ (forall n, Select.sources crit = [] -> Select.pass_sources cc n = true)
     /\ (forall n, Select.filters crit = [] -> pass_filters cc n = true)
     /\ (forall n, Select.conditions crit = [] -> pass_conditions cc n = true)
     /\ (forall n, Select.candidate cc n
                   = (Select.whole crit || is_leaf n)%bool)).
Proof.
  split.
  - intros e He. rewrite select_eq, He. split; [reflexivity |].
    exact (check_raise crit e He).
  - intros cc Hcc.
    destruct (check_ret crit cc Hcc) as (Hk & Hn & Hs & Hf & Hc & Hw).
    split; [now rewrite select_eq, Hcc |].
    split; [| split; [| repeat split]].
    + intros n. rewrite filter_In.
      unfold selected, Select.selected, Select.passes_all.
      fold pass_names pass_filters pass_conditions.
      rewrite !andb_true_iff. tauto.
    + intros n. unfold pass_filters, Select.pass_filters.
      now rewrite forallb_forall.
    + intros n Hnil. unfold Select.pass_keys. now rewrite Hk, Hnil.
    + intros n Hnil. rewrite Hnil in Hn. apply Forall2_nil_l in Hn.
      unfold pass_names, Select.pass_names. now rewrite Hn.
    + intros n Hnil. unfold Select.pass_sources. now rewrite Hs, Hnil.
    + intros n Hnil. rewrite Hnil in Hf. apply Forall2_nil_l in Hf.
      unfold pass_filters, Select.pass_filters. now rewrite Hf.
    + intros n Hnil. rewrite Hnil in Hc. apply Forall2_nil_l in Hc.
      unfold pass_conditions, Select.pass_conditions. now rewrite Hc.
    + intros n. unfold Select.candidate. now rewrite Hw.
Qed.
End SelectFacts.

Lemma condition_error_excludes_witness :
  Examples.toy_select
    [Examples.leaf "/top/rhel6" [("release", DInt 6)];
     Examples.leaf "/top/rhel7" [("release", DInt 7)]] Examples.only_missing
  = Examples.toy_select
      [Examples.leaf "/top/rhel7" [("release", DInt 7)]] Examples.only_missing.
Proof.
  refine (proj1 (proj2
    (condition_error_excludes Examples.toy_compile Select.contains Select.contains
       Examples.toy_stringify Examples.toy_parse Examples.toy_builtin
       Examples.toy_order
       [] [Examples.leaf "/top/rhel7" [("release", DInt 7)]]
       (Examples.leaf "/top/rhel6" [("release", DInt 6)])
       Examples.only_missing "execute['missing'] == 'x'"
       Examples.missing_condition
       (Exn (OtherError "NameError") "execute" None) _ _ _))).
  - simpl. left. reflexivity.
  - reflexivity.
  - reflexivity.
Defined.

(** C3, as stated, fails: with no criteria at all, a node that has
    children passes all five kinds and still is not selected, because
    only leaves are candidates unless the whole tree is asked for. *)
Lemma selection_iff_counterexample :
  ~ (forall (tree : list Node) (crit : Select.Criteria)
            (cc : Select.Compiled) (l : list Node) (n : Node),
        Examples.toy_check crit = Ret cc ->
        Examples.toy_select tree crit = Ret l ->
        In n tree ->
        (In n l <-> Examples.toy_passes_all cc n = true)).
Proof.
  intros H.
  specialize (H [Examples.top; Examples.download []] Examples.no_criteria
                _ _ Examples.top eq_refl eq_refl (or_introl eq_refl)).
  destruct H as [_ H]. specialize (H eq_refl).
  destruct H as [H | []]. discriminate H.
Qed.

Lemma selection_is_conjunction_witness :
  Examples.toy_select
    [Examples.top;
     Examples.download ["Tier1"; "TierSecurity"];
     Examples.download ["Tier1"];
     Examples.download ["TierSecurity"]] Examples.two_tags
  = Ret [Examples.download ["Tier1"; "TierSecurity"]].
Proof.
  destruct (selection_is_conjunction Examples.toy_compile Select.contains
              Select.contains Examples.toy_stringify Examples.toy_parse
              Examples.toy_builtin Examples.toy_order
              [Examples.top;
               Examples.download ["Tier1"; "TierSecurity"];
               Examples.download ["Tier1"];
               Examples.download ["TierSecurity"]] Examples.two_tags)
    as [_ Hsel].
  destruct (Hsel {| Select.c_keys := []; Select.c_names := [];
                    Select.c_sources := [];
                    Select.c_filters := [("tags", "Tier1"); ("tags", "TierSecurity")];
                    Select.c_conditions := []; Select.c_whole := false |}
                 eq_refl) as [Hselect _].
  exact Hselect.
Defined.

(** ** Initialisation and the version marker *)

Lemma init_app {FS} (Tree_init : string -> FS -> res string * FS)
    (before after : list string) (fs : FS) (out : string) :
  Cli.init Tree_init (before ++ after) fs out
  = match Cli.init Tree_init before fs out with
    | (Ret _, fs1, out1) => Cli.init Tree_init after fs1 out1
    | (Raise e, fs1, out1) => (Raise e, fs1, out1)
    end.
Proof.
  revert fs out. induction before as [| p before IH]; intros fs out; simpl.
  - reflexivity.
  - destruct (Tree_init p fs) as [[root | e] fs']; [apply IH | reflexivity].
Qed.

Lemma Tree_init_fresh (fs : gmap string Root.root) (p : string) (r : Root.root) :
  fs !! p = Some r -> Root.marker r = None -> Root.writable r = true ->
  Root.Tree_init p fs = (Ret p, <[p := Root.with_marker "1" r]> fs).
Proof. intros Hp Hm Hw. unfold Root.Tree_init. now rewrite Hp, Hm, Hw. Qed.

Lemma Tree_init_again (fs : gmap string Root.root) (p : string) (r : Root.root)
    (text : string) :
  fs !! p = Some r -> Root.marker r = Some text ->
  Root.Tree_init p fs = (Raise (Exn FileError "already initialized" None), fs).
Proof. intros Hp Hm. unfold Root.Tree_init. now rewrite Hp, Hm. Qed.

Lemma version_bad (fs : gmap string Root.root) (p : string) (r : Root.root) :
  fs !! p = Some r ->
  Root.meta r = Root.Initialized None
  \/ (exists text, Root.meta r = Root.Initialized (Some text)
                   /\ Root.parse_int text = None) ->
  exists msg, Root.version p fs = Raise (Exn FormatError msg None).
Proof.
  intros Hp [Hm | (text & Hm & Hbad)]; unfold Root.version; rewrite Hp, Hm.
  - eauto.
  - rewrite Hbad. eauto.
Qed.

(** A directory without metadata is not a root: its load is a
    [FileError], as for a path that does not exist. *)
Lemma version_uninitialized (fs : gmap string Root.root) (p : string)
    (r : Root.root) :
  fs !! p = Some r -> Root.meta r = Root.Uninitialized ->
  Root.version p fs = Raise (Exn FileError "missing root" None).
Proof. intros Hp Hm. unfold Root.version. now rewrite Hp, Hm. Qed.

(** Initialising fresh, writable, distinct paths marks each of them
    and leaves every other path alone. *)
Lemma init_all_fresh (paths : list string) (fs : gmap string Root.root)
    (out : string) :
  List.NoDup paths ->
  (forall p, In p paths ->
     exists r, fs !! p = Some r /\ Root.marker r = None /\ Root.writable r = true) ->
  exists fs' out',
    Cli.init Root.Tree_init paths fs out = (Ret tt, fs', out')
    /\ (forall p, In p paths ->
          exists r, fs' !! p = Some r /\ Root.marker r = Some "1")
    /\ (forall q, ~ In q paths -> fs' !! q = fs !! q).
Proof.
  revert fs out. induction paths as [| p paths IH]; intros fs out Hnd Hfresh.
  - exists fs, out. simpl. split; [reflexivity | split]; [intros p [] | reflexivity].
  - apply List.NoDup_cons_iff in Hnd as [Hnotin Hnd].
    destruct (Hfresh p (or_introl eq_refl)) as (r & Hp & Hm & Hw).
    simpl. rewrite (Tree_init_fresh fs p r Hp Hm Hw).
    destruct (IH (<[p := Root.with_marker "1" r]> fs)
                 (out +:+ "Metadata tree '" +:+ p
                      +:+ "' successfully initialized." +:+ nl) Hnd)
      as (fs' & out' & Hinit & Hmarked & Hrest).
    { intros q Hq. destruct (Hfresh q (or_intror Hq)) as (rq & Hq1 & Hq2 & Hq3).
      exists rq. rewrite lookup_insert_ne by (intros ->; contradiction). auto. }
    exists fs', out'. split; [exact Hinit | split].
    + intros q [<- | Hq]; [| now apply Hmarked].
      rewrite (Hrest p Hnotin), lookup_insert_eq. eexists. split; reflexivity.
    + intros q Hq. rewrite Hrest by (intros Hin; apply Hq; now right).
      apply lookup_insert_ne. intros ->. apply Hq. now left.
Qed.

Lemma Tree_bad_version (is_attribute : string -> bool) (fs : gmap string Root.root)
    (p : string) (e : exn) :
  Root.version p fs = Raise e -> Root.Tree is_attribute fs p = Raise e.
Proof. intros Hv. unfold Root.Tree. now rewrite Hv. Qed.

(** C6: initialising a fresh (and writable) directory succeeds and
    writes a marker that holds 1, after which the version is read as
    1; initialising a path that has the marker fails with
    [FileError]; the [init] command does this for each path in turn,
    marking all of them when they are fresh and distinct, and failing
    with [FileError] at a path that has the marker; when the marker of
    a root is missing or does not hold a number, its version, its
    load and [ls] or [show] on it fail with [FormatError]. *)
Theorem init_and_version :
  (forall fs p r,
      fs !! p = Some r -> Root.meta r = Root.Uninitialized ->
      Root.writable r = true ->
      Root.Tree_init p fs = (Ret p, <[p := Root.with_marker "1" r]> fs)
      /\ Root.parse_int "1" = Some 1%Z
      /\ Root.version p (<[p := Root.with_marker "1" r]> fs) = Ret 1%Z)
  /\ (forall fs p r text,
      fs !! p = Some r -> Root.marker r = Some text ->
      Root.Tree_init p fs = (Raise (Exn FileError "already initialized" None), fs))
  /\ (forall paths fs out,
      List.NoDup paths ->
      (forall p, In p paths ->
         exists r, fs !! p = Some r /\ Root.meta r = Root.Uninitialized
                   /\ Root.writable r = true) ->
      exists fs' out',
        Cli.init Root.Tree_init paths fs out = (Ret tt, fs', out')
        /\ forall p, In p paths ->
             exists r, fs' !! p = Some r /\ Root.marker r = Some "1")
  /\ (forall before p after fs out fs1 out1 r text,
      Cli.init Root.Tree_init before fs out = (Ret tt, fs1, out1) ->
      fs1 !! p = Some r -> Root.marker r = Some text ->
      Cli.init Root.Tree_init (before ++ p :: after) fs out
      = (Raise (Exn FileError "already initialized" None), fs1, out1))
  /\ (forall is_attribute fs p r,
      fs !! p = Some r ->
      Root.meta r = Root.Initialized None
      \/ (exists text, Root.meta r = Root.Initialized (Some text)
                       /\ Root.parse_int text = None) ->
      exists msg,
        Root.version p fs = Raise (Exn FormatError msg None)
        /\ Root.Tree is_attribute fs p = Raise (Exn FormatError msg None)
        /\ forall (node select_opts : Type)
                  (prune : list Node -> select_opts -> list node * option exn)
                  show sources color listed ctx select format_opts brief w,
             fst (Cli._show (Root.Tree is_attribute fs) prune show sources color
                    listed ctx [p] select format_opts brief w)
             = Raise (Exn FormatError msg None))
  /\ Root.parse_int "bad" = None.
Proof.
  split; [| split; [| split; [| split; [| split]]]].
  - intros fs p r Hp Hm Hw.
    split; [apply Tree_init_fresh; auto; unfold Root.marker; now rewrite Hm |].
    split; [reflexivity |].
    unfold Root.version. now rewrite lookup_insert_eq.
  - intros fs p r text. apply Tree_init_again.
  - intros paths fs out Hnd Hfresh.
    destruct (init_all_fresh paths fs out Hnd) as (fs' & out' & Hi & Hm & _).
    { intros q Hq. destruct (Hfresh q Hq) as (r & Hr & Hmeta & Hw).
      exists r. unfold Root.marker. rewrite Hmeta. auto. }
    eauto.
  - intros before p after fs out fs1 out1 r text Hbefore Hp Hm.
    rewrite init_app, Hbefore. simpl.
    now rewrite (Tree_init_again fs1 p r text Hp Hm).
  - intros is_attribute fs p r Hp Hbad.
    destruct (version_bad fs p r Hp Hbad) as [msg Hv].
    exists msg. split; [exact Hv |].
    pose proof (Tree_bad_version is_attribute fs p _ Hv) as Ht.
    split; [exact Ht |].
    intros. unfold Cli._show, Cli.show_paths, Cli.show_path. now rewrite Ht.
  - reflexivity.
Qed.

Lemma init_and_version_witness :
  Cli.init Root.Tree_init ["/repo"; "/repo"] Examples.repo ""
  = (Raise (Exn FileError "already initialized" None),
     <["/repo" := Root.with_marker "1" Root.blank]> Examples.repo,
     "Metadata tree '/repo' successfully initialized." +:+ nl)
  /\ exists msg,
       Root.Tree Examples.no_attribute Examples.corrupted "/repo"
       = Raise (Exn FormatError msg None).
Proof.
  destruct init_and_version as (Hfresh & _ & _ & Hagain & Hload & _).
  split.
  - apply (Hagain ["/repo"] "/repo" [] Examples.repo ""
             (<["/repo" := Root.with_marker "1" Root.blank]> Examples.repo)
             ("Metadata tree '/repo' successfully initialized." +:+ nl)
             (Root.with_marker "1" Root.blank) "1").
    + simpl.
      destruct (Hfresh Examples.repo "/repo" Root.blank) as [-> _];
        [apply lookup_singleton_eq | reflexivity | reflexivity | reflexivity].
    + apply lookup_insert_eq.
    + reflexivity.
  - destruct (Hload Examples.no_attribute Examples.corrupted "/repo"
                (Root.with_marker "bad" Root.blank)) as (msg & _ & Htree & _).
    + apply lookup_insert_eq.
    + right. exists "bad". split; reflexivity.
    + exists msg. exact Htree.
Defined.

(** ** The traversal *)

Lemma sum_insert_by_name {A} (g : string * A -> nat) (x : string * A)
    (l : list (string * A)) :
  list_sum (map g (Load.insert_by_name x l)) = g x + list_sum (map g l).
Proof.
  induction l as [| y l IH]; simpl; [reflexivity |].
  destruct (String.leb (fst x) (fst y)); simpl; [reflexivity | rewrite IH; lia].
Qed.

Lemma sum_sort_by_name {A} (g : string * A -> nat) (l : list (string * A)) :
  list_sum (map g (Load.sort_by_name l)) = list_sum (map g l).
Proof.
  induction l as [| x l IH]; simpl; [reflexivity |].
  now rewrite sum_insert_by_name, IH.
Qed.

Lemma sum_filter_le {A} (g : A -> nat) (f : A -> bool) (l : list A) :
  list_sum (map g (List.filter f l)) <= list_sum (map g l).
Proof.
  induction l as [| x l IH]; simpl; [lia |].
  destruct (f x); simpl; lia.
Qed.

Lemma sum_map_filter_le {A B} (g : B -> nat) (h : A -> B) (f : A -> bool)
    (l : list A) :
  list_sum (map g (map h (List.filter f l))) <= list_sum (map g (map h l)).
Proof. rewrite !List.map_map. apply sum_filter_le. Qed.

Section LoadFacts.
Variable is_attribute : string -> bool.

Let visit := Load.visit is_attribute.
Let run := Load.run is_attribute.
Let descend := Load.descend is_attribute.

Lemma virtual_weight (file : string) (parent : string) (data : TreeData)
    (srcs : list string) (raw : TreeData) :
  list_sum
    (map Load.work_weight
       (map (Load.virtual_work parent data srcs file)
          (Load.virtual_children is_attribute raw)))
  <= Load.size_data raw.
Proof.
  unfold Load.size_data.
  induction raw as [| [k v] raw IH]; simpl; [lia |].
  destruct v as [| n | bits | s | b | l | m]; simpl; try lia.
  destruct (is_attribute k); simpl.
  - lia.
  - unfold Load.size_data. lia.
Qed.

Lemma dir_weight (parent : string) (data : TreeData) (srcs : list string)
    (subs : list (string * Load.Source)) :
  list_sum (map Load.work_weight (map (Load.dir_work parent data srcs) subs))
  = list_sum (map (fun p => Load.weight (snd p)) subs).
Proof.
  induction subs as [| [name [file raw subs']] subs IH]; simpl; [reflexivity |].
  rewrite IH. reflexivity.
Qed.

(** The children of a node weigh less than the node. *)
Lemma visit_weight (w : Load.Work) :
  list_sum (map Load.work_weight (snd (visit w))) < Load.work_weight w.
Proof.
  unfold visit, Load.visit. simpl.
  rewrite map_app, list_sum_app, dir_weight, sum_sort_by_name.
  eapply Nat.le_lt_trans.
  { apply Nat.add_le_mono_l.
    etransitivity; [apply sum_map_filter_le | apply virtual_weight]. }
  unfold Load.work_weight. lia.
Qed.

Lemma descend_step (w d : Load.Work) (name : string) (names : list string) :
  descend w (name :: names) = Some d ->
  exists kid, In kid (snd (visit w))
              /\ Load.w_path kid = Load.child_path (Load.w_path w) name
              /\ descend kid names = Some d.
Proof.
  unfold descend, visit. simpl.
  match goal with
  | |- context [List.find ?f ?l] => destruct (List.find f l) as [kid |] eqn:Hfind
  end; [| discriminate].
  intros Hd. apply List.find_some in Hfind as [Hin Heq].
  apply String.eqb_eq in Heq. eauto.
Qed.

Lemma descend_path (names : list string) (w d : Load.Work) :
  descend w names = Some d ->
  Load.w_path d = fold_left Load.child_path names (Load.w_path w).
Proof.
  revert w. induction names as [| name names IH]; intros w Hd.
  - injection Hd as <-. reflexivity.
  - apply descend_step in Hd as (kid & _ & Hpath & Hd).
    simpl. rewrite <- Hpath. now apply IH.
Qed.

Lemma run_step (fuel : nat) (w : Load.Work) (rest : list Load.Work)
    (out : list Node) :
  run (S fuel) (w :: rest) out
  = run fuel (snd (visit w) ++ rest) (out ++ [fst (visit w)]).
Proof. unfold run, visit. simpl. now destruct (Load.visit is_attribute w). Qed.

(** With fuel for the weight of its stack, the traversal ends, and
    what it adds to its output holds the node of every entry of the
    stack and of everything below it. *)
Lemma run_complete (fuel : nat) :
  forall (stack : list Load.Work) (out : list Node),
    list_sum (map Load.work_weight stack) <= fuel ->
    exists more,
      run fuel stack out = Some (out ++ more)
      /\ forall w names d,
           In w stack -> descend w names = Some d -> In (fst (visit d)) more.
Proof.
  induction fuel as [| fuel IH]; intros stack out Hfuel.
  - destruct stack as [| w rest].
    + exists []. split; [simpl; now rewrite app_nil_r | intros ? ? ? []].
    + simpl in Hfuel. unfold Load.work_weight in Hfuel at 1. lia.
  - destruct stack as [| w rest].
    + exists []. split; [simpl; now rewrite app_nil_r | intros ? ? ? []].
    + rewrite run_step.
      pose proof (visit_weight w) as Hlt.
      assert (Load.work_weight w + list_sum (map Load.work_weight rest) <= S fuel)
        as Hfuel' by exact Hfuel.
      destruct (IH (snd (visit w) ++ rest) (out ++ [fst (visit w)]))
        as (more & Hrun & Hall).
      { rewrite map_app, list_sum_app. lia. }
      exists (fst (visit w) :: more). split.
      * rewrite Hrun. now rewrite <- app_assoc.
      * intros w' names d [<- | Hin] Hd.
        -- destruct names as [| name names].
           ++ injection Hd as <-. now left.
           ++ apply descend_step in Hd as (kid & Hkid & _ & Hd). right.
              apply (Hall kid names d); [apply in_or_app; now left | exact Hd].
        -- right. apply (Hall w' names d); [apply in_or_app; now right | exact Hd].
Qed.

Lemma root_weight (s : Load.Source) :
  Load.work_weight (Load.root_work s) = Load.weight s.
Proof. now destruct s. Qed.

Lemma root_path (s : Load.Source) : Load.w_path (Load.root_work s) = "/".
Proof. now destruct s. Qed.

Lemma visit_leaf (w : Load.Work) :
  is_leaf (fst (visit w)) = true <-> snd (visit w) = [].
Proof.
  unfold visit, Load.visit, is_leaf. simpl.
  destruct (_ ++ _) as [| kid kids]; simpl; split; congruence.
Qed.
End LoadFacts.

Section DeepFacts.
Variable is_attribute : string -> bool.
Context {regex : Type}.
Variable compile : string -> option regex.
Variable search : regex -> string -> bool.
Variable matches : regex -> string -> bool.
Variable stringify : DataType -> string.
Variable parse : string -> option Condition.expr.
Variable builtin : string -> DataType -> res DataType.
Variable order : DataType -> DataType -> res comparison.

Let select := Select.select compile search matches stringify parse builtin order.

Lemma select_by_name (index : list Node) (pattern : string) (r : regex) (n : Node) :
  compile pattern = Some r ->
  In n index -> is_leaf n = true -> search r (path n) = true ->
  exists l, select index (Select.by_name pattern) = Ret l /\ In n l.
Proof.
  intros Hc Hin Hleaf Hfound.
  unfold select, Select.select, Select.check. simpl. rewrite Hc. simpl.
  eexists. split; [reflexivity |].
  apply filter_In. split; [exact Hin |].
  unfold Select.selected, Select.passes_all, Select.candidate, Select.pass_keys,
    Select.pass_names, Select.pass_sources, Select.pass_filters,
    Select.pass_conditions.
  simpl. now rewrite Hleaf, Hfound.
Qed.

(** The traversal of the specification, which keeps its pending nodes
    on a stack of its own: the load of any hierarchy, whatever its
    depth, ends with an index; the index holds the node of every chain of child names,
    of any length, that the hierarchy has, under the path these names
    spell; and such a node, when it is a leaf, is selected by any name
    pattern found in its path. *)
Theorem deep_hierarchy_loads (s : Load.Source) :
  exists index,
    Load.load is_attribute s = Some index
    /\ forall names w,
         Load.descend is_attribute (Load.root_work s) names = Some w ->
         let n := fst (Load.visit is_attribute w) in
         In n index
         /\ path n = Load.path_of names
         /\ (is_leaf n = true <-> snd (Load.visit is_attribute w) = [])
         /\ forall pattern r,
              compile pattern = Some r ->
              search r (Load.path_of names) = true ->
              is_leaf n = true ->
              exists l, select index (Select.by_name pattern) = Ret l /\ In n l.
Proof.
  destruct (run_complete is_attribute (Load.weight s) [Load.root_work s] [])
    as (index & Hrun & Hall).
  { change (Load.work_weight (Load.root_work s) + 0 <= Load.weight s).
    rewrite root_weight. lia. }
  exists index. split; [exact Hrun |].
  intros names w Hw n.
  assert (In n index) as Hin.
  { apply (Hall (Load.root_work s) names w); [now left | exact Hw]. }
  assert (path n = Load.path_of names) as Hpath.
  { unfold n, Load.path_of. simpl.
    rewrite (descend_path is_attribute names _ _ Hw). now rewrite root_path. }
  split; [exact Hin | split; [exact Hpath | split]].
  - apply visit_leaf.
  - intros pattern r Hc Hfound Hleaf.
    apply (select_by_name index pattern r n Hc Hin Hleaf).
    now rewrite Hpath.
Qed.
End DeepFacts.

Lemma deep_hierarchy_loads_witness :
  exists index l,
    Load.load Examples.no_attribute (Examples.deep 1000) = Some index
    /\ Examples.toy_select index (Select.by_name "deep/deep") = Ret l
    /\ In (fst (Load.visit Examples.no_attribute (Examples.innermost 1000))) l.
Proof.
  destruct (deep_hierarchy_loads Examples.no_attribute Examples.toy_compile
              Select.contains Select.contains Examples.toy_stringify
              Examples.toy_parse Examples.toy_builtin Examples.toy_order
              (Examples.deep 1000)) as (index & Hload & Hall).
  destruct (Hall (repeat "deep" 1000) (Examples.innermost 1000))
    as (_ & _ & _ & Hselect).
  { vm_compute. reflexivity. }
  destruct (Hselect "deep/deep" "deep/deep") as (l & Hl & Hin).
  { reflexivity. }
  { vm_compute. reflexivity. }
  { reflexivity. }
  exists index, l. auto.
Defined.

(** ** The definitions at work *)

Example split_marker_plain : Merge.split_marker "tag" = ("tag", Merge.Plain).
Proof. reflexivity. Qed.

Example merge_union :
  Merge.merge [("a", DInt 1); ("b", DInt 2)] [("b", DStr "two"); ("c", DInt 3)]
  = [("a", DInt 1); ("b", DStr "two"); ("c", DInt 3)].
Proof. reflexivity. Qed.

Example merge_nested :
  Merge.merge [("env", DDict [("x", DInt 1); ("y", DInt 2)])]
    [("env", DDict [("y", DInt 3); ("z+", DList [])])]
  = [("env", DDict [("x", DInt 1); ("y", DInt 3); ("z", DList [])])].
Proof. reflexivity. Qed.

Example merge_remove_scalar :
  Merge.merge [("a", DInt 1); ("b", DInt 2)] [("a-", DInt 1)] = [("b", DInt 2)].
Proof. reflexivity. Qed.

Example load_small_paths :
  option_map (map path) (Load.load Examples.no_attribute Examples.small)
  = Some ["/"; "/alpha"; "/zeta"; "/sub"].
Proof. reflexivity. Qed.

Example load_small_data :
  option_map (map data) (Load.load Examples.no_attribute Examples.small)
  = Some [[("tag", DList [DStr "a"])];
          [("tag", DList [])];
          [("tag", DStr "z")];
          [("tag", DList [DStr "a"; DStr "b"])]].
Proof. reflexivity. Qed.

Example parse_int_marker :
  Root.parse_int ("1" +:+ nl) = Some 1%Z /\ Root.parse_int "" = None
  /\ Root.parse_int "-" = None /\ Root.parse_int "1.0" = None.
Proof. repeat split. Qed.

Example ls_output :
  Examples.toy_show_cmd Examples.toy_Tree ["one"; "two"]
  = (Ret tt,
     {| Cli.stdout := "/a" +:+ nl +:+ "/b" +:+ nl +:+ "/a" +:+ nl +:+ "/b" +:+ nl;
        Cli.logged := []; Cli.loaded := ["one"; "two"] |}).
Proof. reflexivity. Qed.

Example missing_key_is_false :
  Condition.condition_holds Examples.toy_builtin Examples.toy_order
    [("execute", DDict [("how", DStr "dependency")])]
    (Condition.Cmp Condition.Eq
       (Condition.Index (Condition.Name "execute") (Condition.Lit (DStr "wrong key")))
       (Condition.Lit (DStr "0"))) = false
  /\ Condition.condition_holds Examples.toy_builtin Examples.toy_order
       [("execute", DDict [("how", DStr "dependency")])]
       (Condition.Cmp Condition.Eq
          (Condition.Index (Condition.Name "execute") (Condition.Lit (DStr "how")))
          (Condition.Lit (DStr "dependency"))) = true.
Proof. split; reflexivity. Qed.

(** * Further properties of the command line *)

(** ** The text of one node *)

Lemma append_empty_r (s : string) : s +:+ "" = s.
Proof.
  induction s as [| c s IH]; [reflexivity |].
  change (String c (s +:+ "") = String c s). now rewrite IH.
Qed.

Lemma join_empty_cons (x : string) (l : list string) :
  join "" (x :: l) = x +:+ join "" l.
Proof. destruct l; [symmetry; apply append_empty_r | reflexivity]. Qed.

Lemma join_empty_app (a b : list string) :
  join "" (a ++ b) = join "" a +:+ join "" b.
Proof.
  induction a as [| x a IH]; [reflexivity |].
  change (join "" (x :: (a ++ b)) = join "" (x :: a) +:+ join "" b).
  now rewrite !join_empty_cons, IH, append_nl_assoc.
Qed.

Section NodeText.
Context {node : Type}.
Variable show : node -> bool -> gmap string pyval -> res (option string).
Variable sources : node -> list string.
Variable color : string -> string -> string.

Let add_source :=
  fun (acc : res (option string)) (source : string) =>
    (o <- acc ;; Cli.iadd o (color (source +:+ nl) "blue"))%py.

Lemma fold_iadd_some (l : list string) (s : string) :
  fold_left add_source l (Ret (Some s))
  = Ret (Some (s +:+ join "" (map (fun source => color (source +:+ nl) "blue") l))).
Proof.
  revert s. induction l as [| x l IH]; intros s.
  - simpl. now rewrite append_empty_r.
  - change (fold_left add_source l (Ret (Some (s +:+ color (x +:+ nl) "blue")))
            = Ret (Some (s +:+ join "" (color (x +:+ nl) "blue"
                     :: map (fun source => color (source +:+ nl) "blue") l)))).
    now rewrite IH, join_empty_cons, append_nl_assoc.
Qed.

Lemma fold_iadd_raise (l : list string) (e : exn) :
  fold_left add_source l (Raise e) = Raise e.
Proof. induction l as [| x l IH]; [reflexivity | exact IH]. Qed.

Let shown := Cli.shown show.

Lemma show_node_shown (ctx : Cli.Context) (brief : bool)
    (format_opts : option (gmap string pyval)) (n : node) (r : res (option string)) :
  shown brief format_opts n r ->
  Cli.show_node show sources color ctx brief format_opts n
  = (show_out <- r ;;
     if negb (Cli.debug ctx =? 0)%Z
     then fold_left add_source (sources n) (Ret show_out)
     else Ret show_out)%py.
Proof.
  intros [[-> <-] | [-> (d & -> & <-)]]; reflexivity.
Qed.

Lemma node_text_some (ctx : Cli.Context) (brief : bool)
    (format_opts : option (gmap string pyval)) (n : node) (s : string) :
  shown brief format_opts n (Ret (Some s)) ->
  Cli.show_node show sources color ctx brief format_opts n
  = Ret (Some (if (Cli.debug ctx =? 0)%Z then s
               else s +:+ join ""
                      (map (fun source => color (source +:+ nl) "blue")
                         (sources n)))).
Proof.
  intros Hs. rewrite (show_node_shown _ _ _ _ _ Hs). simpl.
  destruct (Cli.debug ctx =? 0)%Z; simpl; [reflexivity |].
  apply fold_iadd_some.
Qed.

(** X1: In debug mode the text of a node is followed by its source files,
    coloured, one per line and in their order; without debug mode the
    text is what [node.show] returned. *)
Theorem show_node_text (ctx : Cli.Context) (brief : bool)
    (format_opts : option (gmap string pyval)) (n : node) (s : string) :
  shown brief format_opts n (Ret (Some s)) ->
  Cli.show_node show sources color ctx brief format_opts n
  = Ret (Some (if (Cli.debug ctx =? 0)%Z then s
               else s +:+ join ""
                      (map (fun source => color (source +:+ nl) "blue")
                         (sources n)))).
Proof.
  intros Hs. rewrite (show_node_shown _ _ _ _ _ Hs). simpl.
  destruct (Cli.debug ctx =? 0)%Z; simpl; [reflexivity |].
  apply fold_iadd_some.
Qed.

(** X2: A node for which [node.show] returns [None] is skipped, except in
    debug mode when the node has a source: adding the source line to
    [None] is a [TypeError]. *)
Theorem show_node_none (ctx : Cli.Context) (brief : bool)
    (format_opts : option (gmap string pyval)) (n : node) :
  shown brief format_opts n (Ret None) ->
  Cli.show_node show sources color ctx brief format_opts n
  = if (Cli.debug ctx =? 0)%Z then Ret None
    else match sources n with
         | [] => Ret None
         | _ :: _ =>
             Raise (Exn TypeError "unsupported operand type(s) for +=" None)
         end.
Proof.
  intros Hs. rewrite (show_node_shown _ _ _ _ _ Hs). simpl.
  destruct (Cli.debug ctx =? 0)%Z; simpl; [reflexivity |].
  destruct (sources n) as [| x l]; [reflexivity |].
  simpl. apply fold_iadd_raise.
Qed.
End NodeText.

(** ** What [_show] collects and prints *)

Section ShowMore.
Context {tree node select_opts : Type}.
Variable Tree : string -> res tree.
Variable prune : tree -> select_opts -> list node * option exn.
Variable show : node -> bool -> gmap string pyval -> res (option string).
Variable sources : node -> list string.
Variable color : string -> string -> string.
Variable listed : nat -> string -> string.
Variable ctx : Cli.Context.
Variable select : select_opts.

Let show_nodes := Cli.show_nodes show sources color ctx.
Let show_path := Cli.show_path Tree prune show sources color ctx select.
Let show_paths := Cli.show_paths Tree prune show sources color ctx select.
Let path_output := Cli.path_output Tree prune show sources color ctx select.
Let all_output := Cli.all_output Tree prune show sources color ctx select.
Let _show := Cli._show Tree prune show sources color listed ctx.

(** The loop over the nodes only adds to the output it is given. *)
Lemma show_nodes_acc (brief : bool) (format_opts : option (gmap string pyval))
    (nodes : list node) (stop : option exn) (output : list string) :
  show_nodes brief format_opts nodes stop output
  = (more <- show_nodes brief format_opts nodes stop [] ;; Ret (output ++ more))%py.
Proof.
  unfold show_nodes. revert output.
  induction nodes as [| n nodes IH]; intros output; simpl.
  - destruct stop; simpl; [reflexivity | now rewrite app_nil_r].
  - destruct (Cli.show_node show sources color ctx brief format_opts n)
      as [[s |] | e]; simpl.
    + rewrite (IH (output ++ [s])), (IH [s]).
      destruct (Cli.show_nodes _ _ _ _ _ _ nodes stop []); simpl;
        [now rewrite <- app_assoc | reflexivity].
    + apply IH.
    + reflexivity.
Qed.

Lemma show_path_fst (brief : bool) (format_opts : option (gmap string pyval))
    (p : string) (output : list string) (w : Cli.world) :
  fst (show_path format_opts brief p output w)
  = (more <- path_output format_opts brief p ;; Ret (output ++ more))%py.
Proof.
  unfold show_path, path_output, Cli.show_path, Cli.path_output.
  destruct (Tree p) as [t | e]; [| reflexivity].
  destruct (prune t select) as [nodes stop]. simpl.
  apply show_nodes_acc.
Qed.

Lemma show_paths_fst (brief : bool) (format_opts : option (gmap string pyval))
    (paths : list string) (output : list string) (w : Cli.world) :
  fst (show_paths format_opts brief paths output w)
  = (more <- all_output format_opts brief paths ;; Ret (output ++ more))%py.
Proof.
  unfold show_paths, all_output. revert output w.
  induction paths as [| p paths IH]; intros output w; simpl.
  - now rewrite app_nil_r.
  - pose proof (show_path_fst brief format_opts p output w) as Hp.
    unfold show_path in Hp.
    destruct (Cli.show_path _ _ _ _ _ _ _ _ _ p output w) as [[output1 | e] w1];
      simpl in Hp.
    + rewrite IH. fold path_output.
      destruct (path_output format_opts brief p) as [here | e]; simpl in *;
        [| discriminate].
      injection Hp as ->.
      destruct (Cli.all_output _ _ _ _ _ _ _ _ _ paths); simpl;
        [now rewrite <- app_assoc | reflexivity].
    + fold path_output. simpl.
      destruct (path_output format_opts brief p); simpl in *; congruence.
Qed.

Lemma show_outcome (paths : list string)
    (format_opts : option (gmap string pyval)) (brief : bool) (w : Cli.world) :
  let text :=
    (output <- all_output format_opts brief paths ;;
     Cli.joined brief format_opts output)%py in
  fst (_show paths select format_opts brief w) = (_ <- text ;; Ret tt)%py
  /\ Cli.stdout (snd (_show paths select format_opts brief w))
     = match text with
       | Ret t => Cli.stdout w +:+ t
       | Raise _ => Cli.stdout w
       end.
Proof.
  intros text. unfold text, _show, Cli._show.
  pose proof (show_paths_fst brief format_opts paths [] w) as Hfst.
  pose proof (show_paths_world Tree prune show sources color ctx select
                format_opts brief paths [] w) as [Hout _].
  unfold show_paths in Hfst. fold all_output.
  destruct (Cli.show_paths _ _ _ _ _ _ _ _ _ paths [] w) as [[output | e] w1];
    simpl in Hfst, Hout.
  - destruct (all_output format_opts brief paths) as [more | e]; simpl in *;
      [| discriminate].
    injection Hfst as ->.
    destruct (Cli.joined brief format_opts more) as [t | e]; simpl.
    + split; [reflexivity |]. destruct (Cli.verbose ctx); simpl; now rewrite Hout.
    + split; [reflexivity | exact Hout].
  - destruct (all_output format_opts brief paths) as [more | e']; simpl in *;
      [discriminate |].
    injection Hfst as ->. split; [reflexivity | exact Hout].
Qed.

(** X4: [_show] prints once, at its end: the joined text of all the
    outputs collected, or nothing at all when anything raised, be it
    for the last node of the last path. *)
Theorem show_prints_all_or_nothing (paths : list string)
    (format_opts : option (gmap string pyval)) (brief : bool) (w : Cli.world) :
  let text :=
    (output <- all_output format_opts brief paths ;;
     Cli.joined brief format_opts output)%py in
  fst (_show paths select format_opts brief w) = (_ <- text ;; Ret tt)%py
  /\ Cli.stdout (snd (_show paths select format_opts brief w))
     = match text with
       | Ret t => Cli.stdout w +:+ t
       | Raise _ => Cli.stdout w
       end.
Proof.
  intros text. unfold text, _show, Cli._show.
  pose proof (show_paths_fst brief format_opts paths [] w) as Hfst.
  pose proof (show_paths_world Tree prune show sources color ctx select
                format_opts brief paths [] w) as [Hout _].
  unfold show_paths in Hfst. fold all_output.
  destruct (Cli.show_paths _ _ _ _ _ _ _ _ _ paths [] w) as [[output | e] w1];
    simpl in Hfst, Hout.
  - destruct (all_output format_opts brief paths) as [more | e]; simpl in *;
      [| discriminate].
    injection Hfst as ->.
    destruct (Cli.joined brief format_opts more) as [t | e]; simpl.
    + split; [reflexivity |]. destruct (Cli.verbose ctx); simpl; now rewrite Hout.
    + split; [reflexivity | exact Hout].
  - destruct (all_output format_opts brief paths) as [more | e']; simpl in *;
      [discriminate |].
    injection Hfst as ->. split; [reflexivity | exact Hout].
Qed.
Let ls := Cli.ls Tree prune show sources color listed ctx.
Let show_command := Cli.show Tree prune show sources color listed ctx.

Lemma all_output_app (brief : bool) (format_opts : option (gmap string pyval))
    (a b : list string) :
  all_output format_opts brief (a ++ b)
  = (x <- all_output format_opts brief a ;;
     y <- all_output format_opts brief b ;; Ret (x ++ y))%py.
Proof.
  unfold all_output. induction a as [| p a IH]; simpl.
  - now destruct (Cli.all_output _ _ _ _ _ _ _ _ _ b).
  - destruct (Cli.path_output _ _ _ _ _ _ _ _ _ p) as [here | e]; simpl;
      [| reflexivity].
    rewrite IH.
    destruct (Cli.all_output _ _ _ _ _ _ _ _ _ a) as [x | e]; simpl; [| reflexivity].
    destruct (Cli.all_output _ _ _ _ _ _ _ _ _ b) as [y | e]; simpl; [| reflexivity].
    now rewrite app_assoc.
Qed.

(** X5: [ls] over the paths [a ++ b] ends as [ls] over [a] followed by
    [ls] over [b] does; when it succeeds it has printed what the two
    print one after the other.  (When [b] fails it has printed
    nothing, whereas the separate runs printed the names under [a].) *)
Theorem ls_over_concatenation (a b : list string) (w : Cli.world) :
  fst (ls (a ++ b) select w)
  = (_ <- fst (ls a select w) ;; fst (ls b select (snd (ls a select w))))%py
  /\ (fst (ls (a ++ b) select w) = Ret tt ->
      Cli.stdout (snd (ls (a ++ b) select w))
      = Cli.stdout (snd (ls b select (snd (ls a select w))))).
Proof.
  destruct (show_outcome (a ++ b) None true w) as [Hr Hs].
  destruct (show_outcome a None true w) as [Hra Hsa].
  destruct (show_outcome b None true
              (snd (_show a select None true w))) as [Hrb Hsb].
  unfold ls, Cli.ls, _show in *. cbv zeta in *.
  rewrite Hr, Hs, Hrb, Hsb, Hra, Hsa. clear.
  rewrite all_output_app.
  destruct (all_output None true a) as [x | e]; simpl; [| split; [reflexivity | discriminate]].
  destruct (all_output None true b) as [y | e]; simpl; [| split; [reflexivity | discriminate]].
  split; [reflexivity | intros _].
  now rewrite join_empty_app, append_nl_assoc.
Qed.

Lemma show_path_logged (brief : bool) (format_opts : option (gmap string pyval))
    (p : string) (output : list string) (w : Cli.world) :
  Cli.logged (snd (show_path format_opts brief p output w))
  = Cli.logged w
    ++ (if Cli.verbose ctx then ["Checking " +:+ p +:+ " for metadata."] else []).
Proof.
  unfold show_path, Cli.show_path.
  destruct (Tree p) as [t | e]; [destruct (prune t select) |];
    destruct (Cli.verbose ctx); simpl; now rewrite ?app_nil_r.
Qed.

Lemma show_paths_logged (brief : bool) (format_opts : option (gmap string pyval))
    (paths : list string) (output output' : list string) (w w' : Cli.world) :
  show_paths format_opts brief paths output w = (Ret output', w') ->
  Cli.logged w'
  = Cli.logged w
    ++ (if Cli.verbose ctx
        then map (fun p => "Checking " +:+ p +:+ " for metadata.") paths
        else []).
Proof.
  unfold show_paths. revert output w.
  induction paths as [| p paths IH]; intros output w; simpl.
  - intros [= _ <-]. now destruct (Cli.verbose ctx); rewrite app_nil_r.
  - pose proof (show_path_logged brief format_opts p output w) as Hp.
    unfold show_path in Hp.
    destruct (Cli.show_path _ _ _ _ _ _ _ _ _ p output w) as [[output1 | e] w1];
      [| discriminate].
    intros Hrest. rewrite (IH _ _ Hrest). simpl in Hp. rewrite Hp.
    destruct (Cli.verbose ctx); simpl; now rewrite <- app_assoc.
Qed.

Lemma show_paths_quiet (brief : bool) (format_opts : option (gmap string pyval))
    (paths : list string) (output : list string) (w : Cli.world) :
  Cli.verbose ctx = false ->
  Cli.logged (snd (show_paths format_opts brief paths output w)) = Cli.logged w.
Proof.
  intros Hq. unfold show_paths. revert output w.
  induction paths as [| p paths IH]; intros output w; simpl; [reflexivity |].
  pose proof (show_path_logged brief format_opts p output w) as Hp.
  unfold show_path in Hp. rewrite Hq, app_nil_r in Hp.
  destruct (Cli.show_path _ _ _ _ _ _ _ _ _ p output w) as [[output1 | e] w1];
    simpl in Hp; [now rewrite IH | exact Hp].
Qed.

(** X6: Without [--verbose] nothing is logged, whatever happens; with it,
    a run that succeeds logs one line per path, in the order of the
    paths, and then the number of outputs it printed. *)
Theorem show_logging (paths : list string)
    (format_opts : option (gmap string pyval)) (brief : bool) (w : Cli.world) :
  (Cli.verbose ctx = false ->
     Cli.logged (snd (_show paths select format_opts brief w)) = Cli.logged w)
  /\ (forall output,
        Cli.verbose ctx = true ->
        all_output format_opts brief paths = Ret output ->
        fst (_show paths select format_opts brief w) = Ret tt ->
        Cli.logged (snd (_show paths select format_opts brief w))
        = Cli.logged w
          ++ map (fun p => "Checking " +:+ p +:+ " for metadata.") paths
          ++ ["Found " +:+ listed (length output) "object" +:+ "."]).
Proof.
  split.
  - intros Hq. pose proof (show_paths_quiet brief format_opts paths [] w Hq) as Hl.
    unfold _show, Cli._show. unfold show_paths in Hl.
    destruct (Cli.show_paths _ _ _ _ _ _ _ _ _ paths [] w) as [[output | e] w1];
      simpl in Hl; [| exact Hl].
    destruct (Cli.joined brief format_opts output); [| exact Hl].
    now rewrite Hq.
  - intros output Hv Hall.
    pose proof (show_paths_fst brief format_opts paths [] w) as Hfst.
    rewrite Hall in Hfst. simpl in Hfst.
    unfold _show, Cli._show. unfold show_paths in Hfst.
    destruct (Cli.show_paths _ _ _ _ _ _ _ _ _ paths [] w) as [[output1 | e] w1] eqn:Hsp;
      simpl in Hfst; [| discriminate].
    injection Hfst as ->.
    pose proof (show_paths_logged brief format_opts paths [] output w w1 Hsp) as Hl.
    rewrite Hv in Hl.
    destruct (Cli.joined brief format_opts output); [| discriminate].
    intros _. rewrite Hv. simpl. rewrite Hl. now rewrite <- app_assoc.
Qed.

Lemma joined_missing_key (d : gmap string pyval) (output : list string) :
  d <> ∅ -> d !! "formatting" = None ->
  Cli.joined false (Some d) output = Raise (Exn KeyError "formatting" None).
Proof.
  intros Hne Hk. unfold Cli.joined, dict_truthy, getitem.
  rewrite bool_decide_eq_false_2 by assumption. simpl. now rewrite Hk.
Qed.

(** X7: Format options that lack the key [formatting] are found out only
    after every path has been processed: [_show] then raises
    [KeyError] and has printed nothing. *)
Theorem show_without_formatting_key (paths : list string)
    (d : gmap string pyval) (output : list string) (w : Cli.world) :
  d <> ∅ -> d !! "formatting" = None ->
  all_output (Some d) false paths = Ret output ->
  fst (_show paths select (Some d) false w)
  = Raise (Exn KeyError "formatting" None)
  /\ Cli.stdout (snd (_show paths select (Some d) false w)) = Cli.stdout w
  /\ Cli.loaded (snd (_show paths select (Some d) false w)) = Cli.loaded w ++ paths.
Proof.
  intros Hne Hk Hall.
  destruct (show_outcome paths (Some d) false w) as [Hr Hs].
  cbv zeta in *. rewrite Hall in Hr, Hs. simpl in Hr, Hs.
  rewrite (joined_missing_key d output Hne Hk) in Hr, Hs.
  split; [exact Hr | split; [exact Hs |]].
  pose proof (show_paths_fst false (Some d) paths [] w) as Hfst.
  rewrite Hall in Hfst. simpl in Hfst.
  pose proof (show_paths_world Tree prune show sources color ctx select
                (Some d) false paths [] w) as [_ Hload].
  unfold _show, Cli._show. unfold show_paths in Hfst.
  destruct (Cli.show_paths _ _ _ _ _ _ _ _ _ paths [] w) as [[output1 | e] w1];
    simpl in Hfst; [| discriminate].
  injection Hfst as ->. specialize (Hload output eq_refl). simpl in Hload.
  now rewrite (joined_missing_key d output Hne Hk).
Qed.
Lemma show_nodes_texts (brief : bool) (format_opts : option (gmap string pyval))
    (text_of : node -> string) (nodes : list node) :
  (forall n, In n nodes ->
     Cli.shown show brief format_opts n (Ret (Some (text_of n)))) ->
  show_nodes brief format_opts nodes None []
  = Ret (map (fun n => Cli.full_text sources color ctx n (text_of n)) nodes).
Proof.
  induction nodes as [| n nodes IH]; intros Hshown; [reflexivity |].
  unfold show_nodes. simpl.
  rewrite (node_text_some show sources color ctx brief format_opts n (text_of n))
    by (apply Hshown; now left).
  simpl. fold show_nodes. rewrite show_nodes_acc, IH; [reflexivity |].
  intros n' Hn'. apply Hshown. now right.
Qed.

Lemma all_output_texts (brief : bool) (format_opts : option (gmap string pyval))
    (nodes_of : string -> list node) (text_of : node -> string)
    (paths : list string) :
  (forall p, In p paths ->
     exists t, Tree p = Ret t /\ prune t select = (nodes_of p, None)) ->
  (forall p n, In p paths -> In n (nodes_of p) ->
     Cli.shown show brief format_opts n (Ret (Some (text_of n)))) ->
  all_output format_opts brief paths
  = Ret (map (fun n => Cli.full_text sources color ctx n (text_of n))
           (flat_map nodes_of paths)).
Proof.
  induction paths as [| p paths IH]; intros Hload Hshown; [reflexivity |].
  unfold all_output. simpl. fold all_output.
  destruct (Hload p (or_introl eq_refl)) as (t & Ht & Hp).
  unfold Cli.path_output. rewrite Ht, Hp. simpl. fold show_nodes.
  rewrite (show_nodes_texts brief format_opts text_of (nodes_of p))
    by (intros n Hn; apply (Hshown p n); [now left | exact Hn]).
  simpl. rewrite IH.
  - simpl. now rewrite map_app.
  - intros q Hq. apply Hload. now right.
  - intros q n Hq Hn. apply (Hshown q n); [now right | exact Hn].
Qed.

(** X8: When every path loads, its selection ends without error and
    [node.show] gives a text for each node, [ls] succeeds and prints
    the texts of the nodes, path after path and node after node, with
    nothing between them. *)
Theorem ls_prints_in_order (nodes_of : string -> list node)
    (text_of : node -> string) (paths : list string) (w : Cli.world) :
  (forall p, In p paths ->
     exists t, Tree p = Ret t /\ prune t select = (nodes_of p, None)) ->
  (forall p n, In p paths -> In n (nodes_of p) ->
     show n true ∅ = Ret (Some (text_of n))) ->
  fst (ls paths select w) = Ret tt
  /\ Cli.stdout (snd (ls paths select w))
     = Cli.stdout w
       +:+ join "" (map (fun n => Cli.full_text sources color ctx n (text_of n))
                      (flat_map nodes_of paths)).
Proof.
  intros Hload Hshown.
  destruct (show_outcome paths None true w) as [Hr Hs].
  unfold ls, Cli.ls, _show in *. cbv zeta in *.
  assert (all_output None true paths
          = Ret (map (fun n => Cli.full_text sources color ctx n (text_of n))
                   (flat_map nodes_of paths))) as Hall.
  { apply all_output_texts; [exact Hload |].
    intros p n Hp Hn. left. split; [reflexivity | now apply (Hshown p n)]. }
  rewrite Hall in Hr, Hs. split; [exact Hr | exact Hs].
Qed.

(** X9: When every path loads, its selection ends without error and
    [node.show] gives a text for each node, [show] with format options
    that hold the key [formatting] succeeds and prints the texts in
    order, joined without separator when the template counts as true
    and with a line terminator otherwise. *)
Theorem show_prints_in_order (nodes_of : string -> list node)
    (text_of : node -> string) (format : gmap string pyval) (template : pyval)
    (paths : list string) (w : Cli.world) :
  format !! "formatting" = Some template ->
  (forall p, In p paths ->
     exists t, Tree p = Ret t /\ prune t select = (nodes_of p, None)) ->
  (forall p n, In p paths -> In n (nodes_of p) ->
     show n false format = Ret (Some (text_of n))) ->
  fst (show_command paths select format w) = Ret tt
  /\ Cli.stdout (snd (show_command paths select format w))
     = Cli.stdout w
       +:+ join (if truthy template then "" else nl)
             (map (fun n => Cli.full_text sources color ctx n (text_of n))
                (flat_map nodes_of paths)).
Proof.
  intros Hk Hload Hshown.
  destruct (show_outcome paths (Some format) false w) as [Hr Hs].
  unfold show_command, Cli.show, _show in *. cbv zeta in *.
  assert (all_output (Some format) false paths
          = Ret (map (fun n => Cli.full_text sources color ctx n (text_of n))
                   (flat_map nodes_of paths))) as Hall.
  { apply all_output_texts; [exact Hload |].
    intros p n Hp Hn. right. split; [reflexivity |].
    exists format. split; [reflexivity | now apply (Hshown p n)]. }
  rewrite Hall in Hr, Hs. simpl in Hr, Hs.
  rewrite (joined_formatting format template _ Hk) in Hr, Hs.
  simpl in Hr, Hs. split; [exact Hr |]. rewrite Hs. now destruct (truthy template).
Qed.

(** X3: Without brief mode and without format options, the first node
    that a tree yields trips the assertion, before [node.show] is
    called; when no tree yields a node there is nothing to trip over
    and [_show] succeeds, printing nothing. *)
Theorem show_asserts_format_options :
  (forall p rest t w,
      Tree p = Ret t -> fst (prune t select) <> [] ->
      fst (_show (p :: rest) select None false w)
      = Raise (Exn AssertionError "" None)
      /\ Cli.stdout (snd (_show (p :: rest) select None false w)) = Cli.stdout w)
  /\ (forall paths w,
      (forall p, In p paths ->
         exists t, Tree p = Ret t /\ prune t select = ([], None)) ->
      fst (_show paths select None false w) = Ret tt
      /\ Cli.stdout (snd (_show paths select None false w)) = Cli.stdout w).
Proof.
  split.
  - intros p rest t w Ht Hnodes.
    destruct (show_outcome (p :: rest) None false w) as [Hr Hs].
    cbv zeta in *.
    assert (all_output None false (p :: rest) = Raise (Exn AssertionError "" None))
      as Hall.
    { unfold all_output. simpl. unfold Cli.path_output. rewrite Ht.
      destruct (prune t select) as [[| n nodes] stop]; [now elim Hnodes |].
      reflexivity. }
    rewrite Hall in Hr, Hs. split; [exact Hr | exact Hs].
  - intros paths w Hempty.
    destruct (show_outcome paths None false w) as [Hr Hs].
    cbv zeta in *.
    assert (all_output None false paths = Ret []) as Hall.
    { rewrite (all_output_texts false None (fun _ => []) (fun _ => "") paths);
        [| exact Hempty | intros p n _ []].
      assert (flat_map (fun _ : string => @nil node) paths = []) as ->
        by (clear; induction paths; auto).
      reflexivity. }
    rewrite Hall in Hr, Hs. simpl in Hr, Hs.
    split; [exact Hr |]. rewrite Hs. apply append_empty_r.
Qed.
End ShowMore.

(** ** The option groups *)

Section OptionFacts.
Context {V A : Type}.
Variable as_value : gmap string V -> V.

Lemma pop_options_lookup (opts : list string) :
  forall (kwargs group rest : gmap string V),
    Cli.pop_options opts kwargs = Ret (group, rest) ->
    forall k,
      group !! k = (if decide (k ∈ opts) then kwargs !! k else None)
      /\ rest !! k = (if decide (k ∈ opts) then None else kwargs !! k).
Proof.
  induction opts as [| opt opts IH]; intros kwargs group rest; simpl.
  - intros [= <- <-] k. rewrite lookup_empty.
    destruct (decide (k ∈ [])) as [Hin | _]; [| auto].
    now apply elem_of_nil in Hin.
  - destruct (kwargs !! opt) as [v |] eqn:Hopt; [| discriminate].
    destruct (Cli.pop_options opts (delete opt kwargs)) as [[g r] | e] eqn:Hpop;
      simpl; [| discriminate].
    intros [= <- <-] k. destruct (IH _ _ _ Hpop k) as [Hg Hr].
    destruct (decide (k = opt)) as [-> | Hne].
    + rewrite lookup_insert_eq, Hr.
      destruct (decide (opt ∈ opt :: opts)) as [_ | Hn];
        [| exfalso; apply Hn; left].
      split; [now rewrite Hopt |].
      destruct (decide (opt ∈ opts)); [reflexivity | apply lookup_delete_eq].
    + rewrite lookup_insert_ne by congruence. rewrite Hg, Hr.
      rewrite lookup_delete_ne by congruence.
      destruct (decide (k ∈ opts)) as [Hin | Hnin];
        destruct (decide (k ∈ opt :: opts)) as [Hin' | Hnin']; auto.
      * exfalso. apply Hnin'. now right.
      * exfalso. apply elem_of_cons in Hin' as [-> | Hin']; contradiction.
Qed.

Lemma pop_options_succeeds (opts : list string) :
  forall (kwargs : gmap string V),
    NoDup opts -> (forall o, o ∈ opts -> is_Some (kwargs !! o)) ->
    exists group rest, Cli.pop_options opts kwargs = Ret (group, rest).
Proof.
  induction opts as [| opt opts IH]; intros kwargs Hnd Hall; simpl.
  - eauto.
  - apply NoDup_cons in Hnd as [Hnotin Hnd].
    destruct (Hall opt) as [v Hv]; [left |]. rewrite Hv.
    destruct (IH (delete opt kwargs) Hnd) as (g & r & ->).
    + intros o Ho. rewrite lookup_delete_ne by (intros ->; contradiction).
      apply Hall. now right.
    + simpl. eauto.
Qed.

Lemma pop_options_fails (pre post : list string) (o : string) :
  forall (kwargs : gmap string V),
    NoDup pre -> (forall x, x ∈ pre -> is_Some (kwargs !! x)) ->
    o ∈ pre \/ kwargs !! o = None ->
    Cli.pop_options (pre ++ o :: post) kwargs = Raise (Exn KeyError o None).
Proof.
  induction pre as [| opt pre IH]; intros kwargs Hnd Hall Hmiss; simpl.
  - destruct Hmiss as [Hin | ->]; [now apply elem_of_nil in Hin | reflexivity].
  - apply NoDup_cons in Hnd as [Hnotin Hnd].
    destruct (Hall opt) as [v Hv]; [left |]. rewrite Hv.
    rewrite (IH (delete opt kwargs) Hnd); [reflexivity | |].
    + intros x Hx. rewrite lookup_delete_ne by (intros ->; contradiction).
      apply Hall. now right.
    + destruct (decide (o = opt)) as [-> | Hne].
      * right. apply lookup_delete_eq.
      * destruct Hmiss as [Hin | Hnone].
        -- left. apply elem_of_cons in Hin as [-> | Hin]; [contradiction | exact Hin].
        -- right. now rewrite lookup_delete_ne by congruence.
Qed.

Lemma grouped_split (name : string) (opts : list string)
    (func : gmap string V -> res A) (kwargs : gmap string V) :
  NoDup opts ->
  (forall o, o ∈ opts -> is_Some (kwargs !! o)) ->
  name ∈ opts \/ kwargs !! name = None ->
  exists group rest,
    Cli.grouped as_value name opts func kwargs
    = func (<[name := as_value group]> rest)
    /\ (forall k, group !! k = if decide (k ∈ opts) then kwargs !! k else None)
    /\ (forall k, rest !! k = if decide (k ∈ opts) then None else kwargs !! k)
    /\ group ∪ rest = kwargs
    /\ group ##ₘ rest.
Proof.
  intros Hnd Hall Hname.
  destruct (pop_options_succeeds opts kwargs Hnd Hall) as (group & rest & Hpop).
  pose proof (pop_options_lookup opts kwargs group rest Hpop) as Hlook.
  exists group, rest.
  assert (rest !! name = None) as Hfree.
  { destruct (Hlook name) as [_ ->].
    destruct (decide (name ∈ opts)); [reflexivity |].
    destruct Hname; [contradiction | assumption]. }
  split; [| split; [| split; [| split]]].
  - unfold Cli.grouped. rewrite Hpop. simpl. now rewrite Hfree.
  - intros k. apply Hlook.
  - intros k. apply Hlook.
  - apply map_eq. intros k. rewrite lookup_union.
    destruct (Hlook k) as [-> ->].
    destruct (decide (k ∈ opts)); destruct (kwargs !! k); reflexivity.
  - apply map_disjoint_spec. intros k x y Hx Hy.
    destruct (Hlook k) as [Hg Hr]. rewrite Hx in Hg. rewrite Hy in Hr.
    destruct (decide (k ∈ opts)); discriminate.
Qed.

(** X10: A wrapper splits the keyword arguments in two: the options of its
    group, with their values, go into the group, everything else is
    passed on beside it; nothing is lost and nothing is in both. *)
Theorem grouped_partitions (name : string) (opts : list string)
    (func : gmap string V -> res A) (kwargs : gmap string V) :
  NoDup opts ->
  (forall o, o ∈ opts -> is_Some (kwargs !! o)) ->
  name ∈ opts \/ kwargs !! name = None ->
  exists group rest,
    Cli.grouped as_value name opts func kwargs
    = func (<[name := as_value group]> rest)
    /\ (forall k, group !! k = if decide (k ∈ opts) then kwargs !! k else None)
    /\ (forall k, rest !! k = if decide (k ∈ opts) then None else kwargs !! k)
    /\ group ∪ rest = kwargs
    /\ group ##ₘ rest.
Proof.
  intros Hnd Hall Hname.
  destruct (pop_options_succeeds opts kwargs Hnd Hall) as (group & rest & Hpop).
  pose proof (pop_options_lookup opts kwargs group rest Hpop) as Hlook.
  exists group, rest.
  assert (rest !! name = None) as Hfree.
  { destruct (Hlook name) as [_ ->].
    destruct (decide (name ∈ opts)); [reflexivity |].
    destruct Hname; [contradiction | assumption]. }
  split; [| split; [| split; [| split]]].
  - unfold Cli.grouped. rewrite Hpop. simpl. now rewrite Hfree.
  - intros k. apply Hlook.
  - intros k. apply Hlook.
  - apply map_eq. intros k. rewrite lookup_union.
    destruct (Hlook k) as [-> ->].
    destruct (decide (k ∈ opts)); destruct (kwargs !! k); reflexivity.
  - apply map_disjoint_spec. intros k x y Hx Hy.
    destruct (Hlook k) as [Hg Hr]. rewrite Hx in Hg. rewrite Hy in Hr.
    destruct (decide (k ∈ opts)); discriminate.
Qed.

(** X11: An option of the group that is not among the keyword arguments
    ends the call with a [KeyError] that names it: the first such
    option in the order of the group.  The wrapped function is not
    called. *)
Theorem grouped_missing_option (name : string) (pre post : list string)
    (o : string) (func : gmap string V -> res A) (kwargs : gmap string V) :
  NoDup pre ->
  (forall x, x ∈ pre -> is_Some (kwargs !! x)) ->
  kwargs !! o = None ->
  Cli.grouped as_value name (pre ++ o :: post) func kwargs
  = Raise (Exn KeyError o None).
Proof.
  intros Hnd Hall Hmiss. unfold Cli.grouped.
  now rewrite (pop_options_fails pre post o kwargs Hnd Hall (or_intror Hmiss)).
Qed.
Ltac names_in H :=
  apply list_elem_of_In in H; simpl in H;
  repeat (destruct H as [H | H]; [try discriminate H |]); try contradiction.

Lemma select_names_NoDup : NoDup Cli.select_names.
Proof.
  apply NoDup_ListNoDup. unfold Cli.select_names.
  repeat (constructor; [simpl; intuition discriminate |]). constructor.
Qed.

Lemma format_names_NoDup : NoDup Cli.format_names.
Proof.
  apply NoDup_ListNoDup. unfold Cli.format_names.
  repeat (constructor; [simpl; intuition discriminate |]). constructor.
Qed.

(** X12: The wrappers of [show], as they are stacked (select outermost,
    then format, then utils): from keyword arguments that hold the
    eight options, the command gets the six select options in one
    dict, the two format options in another, and the other keyword
    arguments ([paths]) untouched. *)
Theorem show_option_stack (func : gmap string V -> res A)
    (kwargs : gmap string V) :
  (forall o, o ∈ Cli.select_names ++ Cli.format_names -> is_Some (kwargs !! o)) ->
  kwargs !! "select" = None -> kwargs !! "format" = None ->
  exists select format rest,
    Cli._select_options as_value
      (Cli._format_options as_value (Cli._utils_options func)) kwargs
    = func (<["format" := as_value format]> (<["select" := as_value select]> rest))
    /\ (forall k, select !! k
                  = if decide (k ∈ Cli.select_names) then kwargs !! k else None)
    /\ (forall k, format !! k
                  = if decide (k ∈ Cli.format_names) then kwargs !! k else None)
    /\ (forall k, rest !! k
                  = if decide (k ∈ Cli.select_names ++ Cli.format_names)
                    then None else kwargs !! k).
Proof.
  intros Hall Hsel Hfmt.
  destruct (grouped_split "select" Cli.select_names
              (Cli._format_options as_value (Cli._utils_options func)) kwargs)
    as (select & rest1 & Hcall1 & Hs & Hr1 & _ & _).
  { apply select_names_NoDup. }
  { intros o Ho. apply Hall. apply elem_of_app. now left. }
  { now right. }
  set (kwargs1 := <["select" := as_value select]> rest1) in *.
  assert (forall k, k ∈ Cli.format_names -> kwargs1 !! k = kwargs !! k) as Hsame.
  { intros k Hk. unfold kwargs1. names_in Hk; subst k.
    - rewrite lookup_insert_ne by discriminate. rewrite Hr1.
      destruct (decide ("formatting" ∈ Cli.select_names)) as [Hin | _];
        [names_in Hin | reflexivity].
    - rewrite lookup_insert_ne by discriminate. rewrite Hr1.
      destruct (decide ("values" ∈ Cli.select_names)) as [Hin | _];
        [names_in Hin | reflexivity]. }
  destruct (grouped_split "format" Cli.format_names
              (Cli._utils_options func) kwargs1)
    as (format & rest2 & Hcall2 & Hf & Hr2 & _ & _).
  { apply format_names_NoDup. }
  { intros o Ho. rewrite (Hsame o Ho). apply Hall. apply elem_of_app. now right. }
  { right. unfold kwargs1. rewrite lookup_insert_ne by discriminate. rewrite Hr1.
    destruct (decide ("format" ∈ Cli.select_names)); [reflexivity | exact Hfmt]. }
  assert (rest2 !! "select" = Some (as_value select)) as Hkept.
  { rewrite Hr2. destruct (decide ("select" ∈ Cli.format_names)) as [Hin | _];
      [names_in Hin |]. unfold kwargs1. apply lookup_insert_eq. }
  exists select, format, (delete "select" rest2).
  split; [| split; [exact Hs | split]].
  - unfold Cli._select_options. rewrite Hcall1.
    unfold Cli._format_options. rewrite Hcall2. unfold Cli._utils_options.
    now rewrite insert_delete_eq, (insert_id rest2 "select" _ Hkept).
  - intros k. rewrite Hf.
    destruct (decide (k ∈ Cli.format_names)) as [Hk | _]; [now apply Hsame | reflexivity].
  - intros k. destruct (decide (k = "select")) as [-> | Hne].
    + rewrite lookup_delete_eq.
      destruct (decide ("select" ∈ Cli.select_names ++ Cli.format_names));
        [reflexivity | now rewrite Hsel].
    + rewrite lookup_delete_ne by congruence. rewrite Hr2.
      destruct (decide (k ∈ Cli.format_names)) as [Hkf | Hkf].
      * destruct (decide (k ∈ Cli.select_names ++ Cli.format_names)) as [_ | Hn];
          [reflexivity |]. exfalso. apply Hn. apply elem_of_app. now right.
      * unfold kwargs1. rewrite lookup_insert_ne by congruence. rewrite Hr1.
        destruct (decide (k ∈ Cli.select_names)) as [Hks | Hks];
          destruct (decide (k ∈ Cli.select_names ++ Cli.format_names)) as [Hk | Hk];
          try reflexivity.
        -- exfalso. apply Hk. apply elem_of_app. now left.
        -- exfalso. apply elem_of_app in Hk as [Hk | Hk]; contradiction.
Qed.
End OptionFacts.

(** ** The [clean] command *)

Section CleanFacts.
Context {FS : Type}.
Variable get_cache_directory : FS -> res string.
Variable clean_cache_directory : FS -> res unit * FS.

Let clean := Cli.clean get_cache_directory clean_cache_directory.

(** X13: [clean] reports the removal only after both steps went well; an
    [Exception] of either step comes out as the [GeneralError]
    [Unable to remove cache] with that exception as its cause, and
    nothing is reported then; when the cache directory cannot even be
    looked up, nothing is removed. *)
Theorem clean_outcome (fs : FS) (out : string) :
  (forall cache fs',
      get_cache_directory fs = Ret cache ->
      clean_cache_directory fs = (Ret tt, fs') ->
      clean fs out
      = (Ret tt, fs',
         out +:+ "Cache directory '" +:+ cache +:+ "' has been removed." +:+ nl))
  /\ (forall err,
      get_cache_directory fs = Raise err -> is_Exception (exn_cls err) = true ->
      clean fs out
      = (Raise (Exn GeneralError "Unable to remove cache" (Some err)), fs, out))
  /\ (forall cache err fs',
      get_cache_directory fs = Ret cache ->
      clean_cache_directory fs = (Raise err, fs') ->
      is_Exception (exn_cls err) = true ->
      clean fs out
      = (Raise (Exn GeneralError "Unable to remove cache" (Some err)), fs', out))
  /\ (forall e,
      fst (fst (clean fs out)) = Raise e ->
      snd (clean fs out) = out
      /\ (is_Exception (exn_cls e) = true ->
          exn_cls e = GeneralError /\ exn_msg e = "Unable to remove cache"
          /\ exists err, exn_cause e = Some err)).
Proof.
  unfold clean, Cli.clean.
  split; [| split; [| split]].
  - intros cache fs' -> ->. reflexivity.
  - intros err -> Hcls. now rewrite Hcls.
  - intros cache err fs' -> -> Hcls. now rewrite Hcls.
  - intros e.
    destruct (get_cache_directory fs) as [cache | err].
    + destruct (clean_cache_directory fs) as [[[] | err] fs']; simpl; [discriminate |].
      destruct (is_Exception (exn_cls err)) eqn:Hcls; simpl; intros [= <-].
      * split; [reflexivity |]. simpl. eauto.
      * split; [reflexivity |]. congruence.
    + destruct (is_Exception (exn_cls err)) eqn:Hcls; simpl; intros [= <-].
      * split; [reflexivity |]. simpl. eauto.
      * split; [reflexivity |]. congruence.
Qed.

(** X14: Under the catch-all entry point, a failed [clean] carries two
    layers: [fmf cli command failed], caused by [Unable to remove
    cache], caused by the exception of the cache directory. *)
Theorem clean_error_chain (fs : FS) (out : string) (e : exn) :
  fst (fst (clean fs out)) = Raise e ->
  is_Exception (exn_cls e) = true ->
  exists err,
    Cli.CatchAllExceptions_call (fun _ : unit => fst (fst (clean fs out))) tt
    = Raise (Exn GeneralError "fmf cli command failed"
               (Some (Exn GeneralError "Unable to remove cache" (Some err))))
    /\ (get_cache_directory fs = Raise err
        \/ exists cache, get_cache_directory fs = Ret cache
                         /\ fst (clean_cache_directory fs) = Raise err).
Proof.
  unfold Cli.CatchAllExceptions_call, clean, Cli.clean.
  destruct (get_cache_directory fs) as [cache | err].
  - destruct (clean_cache_directory fs) as [[[] | err] fs']; simpl; [discriminate |].
    destruct (is_Exception (exn_cls err)) eqn:Hcls; simpl; intros [= <-] He.
    + exists err. split; [reflexivity | right; eauto].
    + congruence.
  - destruct (is_Exception (exn_cls err)) eqn:Hcls; simpl; intros [= <-] He.
    + exists err. split; [reflexivity | now left].
    + congruence.
Qed.
End CleanFacts.

(** ** More on [cd] *)


(** X23: When the working directory is gone as [cd] is entered, the
    [getcwd] of its first line raises: there is no [chdir], the body
    does not run and nothing has changed, whatever the target. *)
Theorem cd_entry_gone {R A} (target target' : string)
    (body body' : Cli.process R -> res A * Cli.process R) (st : Cli.process R) :
  Cli.cwd st ∉ Cli.dirs st ∪ Cli.denied st ->
  Cli.cd target body st = (Raise (Exn FileNotFoundError "" None), st)
  /\ Cli.cd target body st = Cli.cd target' body' st.
Proof.
  intros Hgone. unfold Cli.cd. rewrite (getcwd_gone _ Hgone). auto.
Qed.

Lemma set_cwd_twice {R} (a b : string) (st : Cli.process R) :
  Cli.set_cwd a (Cli.set_cwd b st) = Cli.set_cwd a st.
Proof. reflexivity. Qed.

(** X16: [cd] nests like pushd and popd: a [cd] inside the body of another
    comes back to the directory of the outer one, and the outer one
    to where it started. *)
Theorem cd_nested {R A} (outer inner : string)
    (body : Cli.process R -> res A * Cli.process R)
    (st st2 : Cli.process R) (r : res A) :
  Cli.cwd st ∈ Cli.dirs st ∪ Cli.denied st ->
  outer ∈ Cli.dirs st -> inner ∈ Cli.dirs st ->
  body (Cli.set_cwd inner st) = (r, st2) ->
  outer ∈ Cli.dirs st2 -> Cli.cwd st ∈ Cli.dirs st2 ->
  Cli.cd inner body (Cli.set_cwd outer st) = (r, Cli.set_cwd outer st2)
  /\ Cli.cd outer (Cli.cd inner body) st = (r, Cli.set_cwd (Cli.cwd st) st2).
Proof.
  intros Hcwd Ho Hi Hbody Ho2 Hback.
  assert (Cli.cd inner body (Cli.set_cwd outer st) = (r, Cli.set_cwd outer st2))
    as Hinner.
  { unfold Cli.cd.
    rewrite (getcwd_ok (Cli.set_cwd outer st))
      by (apply elem_of_union; left; exact Ho).
    rewrite (chdir_ok inner (Cli.set_cwd outer st)) by exact Hi.
    rewrite set_cwd_twice, Hbody. simpl.
    now rewrite (chdir_ok outer st2 Ho2). }
  split; [exact Hinner |].
  unfold Cli.cd at 1. rewrite (getcwd_ok _ Hcwd), (chdir_ok _ _ Ho), Hinner.
  rewrite (chdir_ok (Cli.cwd st) (Cli.set_cwd outer st2)) by exact Hback.
  now rewrite set_cwd_twice.
Qed.


(** ** More on [init] *)

Section InitFacts.
Context {FS : Type}.
Variable Tree_init : string -> FS -> res string * FS.

Let message (root : string) : string :=
  "Metadata tree '" +:+ root +:+ "' successfully initialized." +:+ nl.

Lemma init_success_lines (paths : list string) :
  forall (fs fs' : FS) (out out' : string),
    Cli.init Tree_init paths fs out = (Ret tt, fs', out') ->
    exists roots,
      length roots = length paths
      /\ out' = out +:+ join "" (map message roots).
Proof.
  induction paths as [| p paths IH]; intros fs fs' out out'; simpl.
  - intros [= _ <-]. exists []. split; [reflexivity |].
    simpl. now rewrite append_empty_r.
  - destruct (Tree_init p fs) as [[root | e] fs1]; [| discriminate].
    intros Hrest. destruct (IH _ _ _ _ Hrest) as (roots & Hlen & ->).
    exists (root :: roots). split; [simpl; now rewrite Hlen |].
    change (map message (root :: roots)) with (message root :: map message roots).
    rewrite join_empty_cons. unfold message at 2.
    now rewrite !append_nl_assoc.
Qed.

(** X18: [init] reports each root as soon as it is initialized: a run that
    succeeds has printed one line per path; a path that fails ends the
    run after the lines of the paths before it, which stay
    initialized, and the paths after it are not touched. *)
Theorem init_reports_as_it_goes :
  (forall paths fs fs' out out',
      Cli.init Tree_init paths fs out = (Ret tt, fs', out') ->
      exists roots,
        length roots = length paths
        /\ out' = out +:+ join "" (map message roots))
  /\ (forall before p after fs out fs1 out1 e fs2,
      Cli.init Tree_init before fs out = (Ret tt, fs1, out1) ->
      Tree_init p fs1 = (Raise e, fs2) ->
      Cli.init Tree_init (before ++ p :: after) fs out = (Raise e, fs2, out1)).
Proof.
  split.
  - intros paths fs fs' out out'. apply init_success_lines.
  - intros before p after fs out fs1 out1 e fs2 Hbefore Hp.
    rewrite init_app, Hbefore. simpl. now rewrite Hp.
Qed.
End InitFacts.

(** ** More on [normalize] *)

Lemma comprehension_app {A B} (f : A -> res B) (a b : list A) :
  Normalize.comprehension f (a ++ b)
  = (x <- Normalize.comprehension f a ;;
     y <- Normalize.comprehension f b ;; Ret (x ++ y))%py.
Proof.
  induction a as [| d a IH]; simpl.
  - now destruct (Normalize.comprehension f b).
  - destruct (f d) as [o | e]; simpl; [| reflexivity].
    rewrite IH.
    destruct (Normalize.comprehension f a) as [x | e]; simpl; [| reflexivity].
    now destruct (Normalize.comprehension f b).
Qed.

Lemma comprehension_first_failure {A B} (f : A -> res B) (pre post : list A)
    (d : A) (e : exn) :
  (forall x, In x pre -> exists o, f x = Ret o) -> f d = Raise e ->
  Normalize.comprehension f (pre ++ d :: post) = Raise e.
Proof.
  intros Hpre Hd. rewrite comprehension_app.
  destruct (comprehension_total f pre Hpre) as [l ->]. simpl. now rewrite Hd.
Qed.

Section NormalizeMore.
Context {T X : Type}.
Variable construct : Normalize.pytype -> DataType -> X -> res T.

(** X19: For a target that is not a list alias, [normalize] hands the data
    as a whole, a list too, to one converter and returns that one
    object: to the normalizer when one is given and counts as true, to
    the class when none is given or the one given counts as false. *)
Theorem normalize_single (cls : Normalize.pytype) (data : DataType) (extra : X)
    (normalizer : option (Normalize.callable T X)) :
  (forall args, cls <> Normalize.GenericAlias "list" args) ->
  Normalize.normalize construct cls data extra normalizer
  = (o <- Normalize.converter construct cls extra normalizer data ;;
     Ret (Normalize.Object o))%py
  /\ (forall c, normalizer = Some c -> Normalize.truth_value c = true ->
        Normalize.normalize construct cls data extra normalizer
        = (o <- Normalize.call c data extra ;; Ret (Normalize.Object o))%py)
  /\ (forall c, normalizer = Some c -> Normalize.truth_value c = false ->
        Normalize.normalize construct cls data extra normalizer
        = (o <- construct cls data extra ;; Ret (Normalize.Object o))%py)
  /\ (normalizer = None ->
        Normalize.normalize construct cls data extra normalizer
        = (o <- construct cls data extra ;; Ret (Normalize.Object o))%py).
Proof.
  intros Hcls.
  assert (Normalize.normalize construct cls data extra normalizer
          = (o <- Normalize.converter construct cls extra normalizer data ;;
             Ret (Normalize.Object o))%py) as Heq.
  { unfold Normalize.normalize, Normalize.converter.
    destruct cls as [name | origin args].
    - now destruct (Normalize.chosen normalizer).
    - destruct (String.eqb origin "list") eqn:Horigin.
      + apply String.eqb_eq in Horigin. subst origin. now elim (Hcls args).
      + now destruct (Normalize.chosen normalizer). }
  split; [exact Heq |]. rewrite Heq.
  split; [| split].
  - intros c -> Ht. now rewrite (converter_truthy construct cls extra c Ht).
  - intros c -> Ht. now rewrite (converter_falsy construct cls extra c Ht).
  - now intros ->.
Qed.

(** X20: When a normalizer is given and counts as true, the class is
    not called, for no target and no data: what calling a class does
    is of no consequence.  When the normalizer given counts as false,
    it is the normalizer that is not called: the result is that of
    giving none. *)
Theorem normalizer_replaces_class
    (construct' : Normalize.pytype -> DataType -> X -> res T)
    (cls : Normalize.pytype) (data : DataType) (extra : X)
    (c : Normalize.callable T X) :
  (Normalize.truth_value c = true ->
     Normalize.normalize construct cls data extra (Some c)
     = Normalize.normalize construct' cls data extra (Some c))
  /\ (Normalize.truth_value c = false ->
       Normalize.normalize construct cls data extra (Some c)
       = Normalize.normalize construct cls data extra None).
Proof.
  split.
  - intros Ht. unfold Normalize.normalize, Normalize.chosen. rewrite Ht.
    destruct cls as [name | origin args]; [reflexivity |].
    now destruct (String.eqb origin "list").
  - intros Ht. unfold Normalize.normalize, Normalize.chosen.
    now rewrite Ht.
Qed.

(** X21: On a list, the first element whose conversion raises decides:
    [normalize] raises that exception, whatever comes after it. *)
Theorem normalize_first_failure (obj_cls : Normalize.pytype)
    (more : list Normalize.pytype) (pre post : list DataType) (d : DataType)
    (extra : X) (normalizer : option (Normalize.callable T X)) (e : exn) :
  let convert := Normalize.converter construct obj_cls extra normalizer in
  (forall x, In x pre -> exists o, convert x = Ret o) ->
  convert d = Raise e ->
  Normalize.normalize construct (Normalize.GenericAlias "list" (obj_cls :: more))
    (DList (pre ++ d :: post)) extra normalizer = Raise e.
Proof.
  intros convert Hpre Hd. rewrite normalize_on_list. simpl.
  fold convert. now rewrite (comprehension_first_failure convert pre post d e Hpre Hd).
Qed.

(** X22: Normalising a list is done element by element: the result for
    two lists put together is the two results put together. *)
Theorem normalize_append (obj_cls : Normalize.pytype)
    (more : list Normalize.pytype) (l1 l2 : list DataType) (extra : X)
    (normalizer : option (Normalize.callable T X)) (o1 o2 : list T) :
  let cls := Normalize.GenericAlias "list" (obj_cls :: more) in
  Normalize.normalize construct cls (DList l1) extra normalizer
  = Ret (Normalize.Objects o1) ->
  Normalize.normalize construct cls (DList l2) extra normalizer
  = Ret (Normalize.Objects o2) ->
  Normalize.normalize construct cls (DList (l1 ++ l2)) extra normalizer
  = Ret (Normalize.Objects (o1 ++ o2)).
Proof.
  intros cls. unfold cls. rewrite !normalize_on_list. simpl.
  rewrite comprehension_app.
  destruct (Normalize.comprehension _ l1) as [x | e]; simpl; [| discriminate].
  destruct (Normalize.comprehension _ l2) as [y | e]; simpl; [| discriminate].
  now intros [= ->] [= ->].
Qed.
End NormalizeMore.

(** ** The further properties on concrete runs *)

Lemma show_node_text_witness :
  Cli.show_node Examples.toy_show Examples.one_source Examples.toy_color
    Examples.chatty true None "/a"
  = Ret (Some (("/a" +:+ nl) +:+ join "" ["/wget/main.fmf" +:+ nl])).
Proof.
  apply (show_node_text Examples.toy_show Examples.one_source Examples.toy_color
           Examples.chatty true None "/a" ("/a" +:+ nl)).
  left. split; reflexivity.
Defined.

Lemma show_node_none_witness :
  Cli.show_node Examples.silent_show Examples.one_source Examples.toy_color
    Examples.chatty true None "/a"
  = Raise (Exn TypeError "unsupported operand type(s) for +=" None).
Proof.
  apply (show_node_none Examples.silent_show Examples.one_source
           Examples.toy_color Examples.chatty true None "/a").
  left. split; reflexivity.
Defined.

Lemma ls_over_concatenation_witness :
  Cli.stdout
    (snd (Cli.ls Examples.toy_Tree Examples.toy_prune Examples.toy_show
            Examples.toy_sources Examples.toy_color Examples.toy_listed
            Examples.quiet (["one"] ++ ["two"]) tt Cli.empty_world))
  = Cli.stdout
      (snd (Cli.ls Examples.toy_Tree Examples.toy_prune Examples.toy_show
              Examples.toy_sources Examples.toy_color Examples.toy_listed
              Examples.quiet ["two"] tt
              (snd (Cli.ls Examples.toy_Tree Examples.toy_prune Examples.toy_show
                      Examples.toy_sources Examples.toy_color Examples.toy_listed
                      Examples.quiet ["one"] tt Cli.empty_world)))).
Proof.
  apply (ls_over_concatenation Examples.toy_Tree Examples.toy_prune
           Examples.toy_show Examples.toy_sources Examples.toy_color
           Examples.toy_listed Examples.quiet tt ["one"] ["two"] Cli.empty_world).
  reflexivity.
Defined.

Lemma show_logging_witness :
  Cli.logged
    (snd (Cli._show Examples.toy_Tree Examples.toy_prune Examples.toy_show
            Examples.toy_sources Examples.toy_color Examples.toy_listed
            Examples.chatty ["one"] tt None true Cli.empty_world))
  = [] ++ map (fun p => "Checking " +:+ p +:+ " for metadata.") ["one"]
       ++ ["Found " +:+ Examples.toy_listed 2 "object" +:+ "."].
Proof.
  apply (show_logging Examples.toy_Tree Examples.toy_prune Examples.toy_show
           Examples.toy_sources Examples.toy_color Examples.toy_listed
           Examples.chatty tt ["one"] None true Cli.empty_world)
    with (output := ["/a" +:+ nl; "/b" +:+ nl]); reflexivity.
Defined.

Lemma show_without_formatting_key_witness :
  fst (Cli._show Examples.toy_Tree Examples.toy_prune Examples.toy_show
         Examples.toy_sources Examples.toy_color Examples.toy_listed
         Examples.quiet ["one"] tt (Some {["values" := PTuple []]}) false
         Cli.empty_world)
  = Raise (Exn KeyError "formatting" None).
Proof.
  apply (show_without_formatting_key Examples.toy_Tree Examples.toy_prune
           Examples.toy_show Examples.toy_sources Examples.toy_color
           Examples.toy_listed Examples.quiet tt ["one"]
           {["values" := PTuple []]} ["/a" +:+ nl; "/b" +:+ nl] Cli.empty_world).
  - intros H. apply (f_equal (fun m => m !! "values")) in H.
    rewrite lookup_singleton_eq, lookup_empty in H. discriminate H.
  - apply lookup_singleton_ne. discriminate.
  - reflexivity.
Defined.

Lemma ls_prints_in_order_witness :
  Cli.stdout
    (snd (Cli.ls Examples.toy_Tree Examples.toy_prune Examples.toy_show
            Examples.toy_sources Examples.toy_color Examples.toy_listed
            Examples.quiet ["one"; "two"] tt Cli.empty_world))
  = "" +:+ join "" ["/a" +:+ nl; "/b" +:+ nl; "/a" +:+ nl; "/b" +:+ nl].
Proof.
  apply (ls_prints_in_order Examples.toy_Tree Examples.toy_prune
           Examples.toy_show Examples.toy_sources Examples.toy_color
           Examples.toy_listed Examples.quiet tt
           (fun _ => ["/a"; "/b"]) (fun n => n +:+ nl) ["one"; "two"]
           Cli.empty_world).
  - intros p [<- | [<- | []]]; eexists; split; reflexivity.
  - intros p n _ _. reflexivity.
Defined.

Lemma show_prints_in_order_witness :
  Cli.stdout
    (snd (Cli.show Examples.toy_Tree Examples.toy_prune Examples.toy_show
            Examples.toy_sources Examples.toy_color Examples.toy_listed
            Examples.quiet ["one"] tt {["formatting" := PNone]} Cli.empty_world))
  = "" +:+ join nl ["/a" +:+ nl; "/b" +:+ nl].
Proof.
  apply (show_prints_in_order Examples.toy_Tree Examples.toy_prune
           Examples.toy_show Examples.toy_sources Examples.toy_color
           Examples.toy_listed Examples.quiet tt
           (fun _ => ["/a"; "/b"]) (fun n => n +:+ nl)
           {["formatting" := PNone]} PNone ["one"] Cli.empty_world).
  - apply lookup_singleton_eq.
  - intros p [<- | []]; eexists; split; reflexivity.
  - intros p n _ _. reflexivity.
Defined.

Lemma show_asserts_format_options_witness :
  fst (Cli._show Examples.toy_Tree Examples.toy_prune Examples.toy_show
         Examples.toy_sources Examples.toy_color Examples.toy_listed
         Examples.quiet ("one" :: ["two"]) tt None false Cli.empty_world)
  = Raise (Exn AssertionError "" None).
Proof.
  destruct (show_asserts_format_options Examples.toy_Tree Examples.toy_prune
              Examples.toy_show Examples.toy_sources Examples.toy_color
              Examples.toy_listed Examples.quiet tt) as [Hassert _].
  apply (Hassert "one" ["two"] ["/a"; "/b"] Cli.empty_world);
    [reflexivity | discriminate].
Defined.

Lemma grouped_partitions_witness :
  exists group rest,
    Cli.grouped Examples.as_group "format" Cli.format_names Examples.count_keys
      Examples.show_kwargs
    = Examples.count_keys (<["format" := Examples.as_group group]> rest)
    /\ group ∪ rest = Examples.show_kwargs.
Proof.
  destruct (grouped_partitions Examples.as_group "format" Cli.format_names
              Examples.count_keys Examples.show_kwargs)
    as (group & rest & Hcall & _ & _ & Hunion & _).
  - apply format_names_NoDup.
  - intros o Ho. apply list_elem_of_In in Ho.
    destruct Ho as [<- | [<- | []]]; eexists; vm_compute; reflexivity.
  - right. vm_compute. reflexivity.
  - exists group, rest. split; assumption.
Defined.

Lemma grouped_missing_option_witness :
  Cli.grouped Examples.as_group "format" (["formatting"] ++ "values" :: [])
    Examples.count_keys (delete "values" Examples.show_kwargs)
  = Raise (Exn KeyError "values" None).
Proof.
  apply (grouped_missing_option Examples.as_group "format" ["formatting"] []
           "values" Examples.count_keys (delete "values" Examples.show_kwargs)).
  - apply NoDup_singleton.
  - intros x Hx. apply list_elem_of_In in Hx.
    destruct Hx as [<- | []]. eexists. vm_compute. reflexivity.
  - apply lookup_delete_eq.
Defined.

Lemma show_option_stack_witness :
  exists select format rest,
    Cli._select_options Examples.as_group
      (Cli._format_options Examples.as_group
         (Cli._utils_options Examples.count_keys)) Examples.show_kwargs
    = Examples.count_keys
        (<["format" := Examples.as_group format]>
           (<["select" := Examples.as_group select]> rest))
    /\ rest !! "paths" = Some (Examples.Plain (PTuple ["."]))
    /\ select !! "keys" = Some (Examples.Plain (PTuple ["depth"]))
    /\ format !! "values" = Some (Examples.Plain (PTuple ["name"])).
Proof.
  destruct (show_option_stack Examples.as_group Examples.count_keys
              Examples.show_kwargs)
    as (select & format & rest & Hcall & Hs & Hf & Hr).
  - intros o Ho. apply list_elem_of_In in Ho. simpl in Ho.
    repeat (destruct Ho as [<- | Ho]; [eexists; vm_compute; reflexivity |]).
    destruct Ho.
  - vm_compute. reflexivity.
  - vm_compute. reflexivity.
  - exists select, format, rest.
    split; [exact Hcall |].
    rewrite (Hr "paths"), (Hs "keys"), (Hf "values").
    repeat split; vm_compute; reflexivity.
Defined.

Lemma clean_outcome_witness :
  Cli.clean Examples.toy_cache_directory Examples.toy_clean_cache true ""
  = (Ret tt, false,
     "" +:+ "Cache directory '" +:+ "/var/tmp/fmf" +:+ "' has been removed." +:+ nl)
  /\ Cli.clean Examples.toy_cache_directory Examples.toy_clean_cache false ""
     = (Raise (Exn GeneralError "Unable to remove cache"
                 (Some (Exn FileNotFoundError "/var/tmp/fmf" None))), false, "").
Proof.
  destruct (clean_outcome Examples.toy_cache_directory Examples.toy_clean_cache
              true "") as (Hok & _).
  destruct (clean_outcome Examples.toy_cache_directory Examples.toy_clean_cache
              false "") as (_ & _ & Hfail & _).
  split.
  - apply Hok; reflexivity.
  - apply (Hfail "/var/tmp/fmf"); reflexivity.
Defined.

Lemma clean_error_chain_witness :
  exists err,
    Cli.CatchAllExceptions_call
      (fun _ : unit =>
         fst (fst (Cli.clean Examples.toy_cache_directory
                     Examples.toy_clean_cache false ""))) tt
    = Raise (Exn GeneralError "fmf cli command failed"
               (Some (Exn GeneralError "Unable to remove cache" (Some err)))).
Proof.
  destruct (clean_error_chain Examples.toy_cache_directory
              Examples.toy_clean_cache false ""
              (Exn GeneralError "Unable to remove cache"
                 (Some (Exn FileNotFoundError "/var/tmp/fmf" None))))
    as (err & Hchain & _); [reflexivity | reflexivity |].
  exists err. exact Hchain.
Defined.

Lemma home_cwd_exists :
  Cli.cwd Examples.home ∈ Cli.dirs Examples.home ∪ Cli.denied Examples.home.
Proof.
  simpl. apply elem_of_union. left. apply elem_of_union. left.
  now apply elem_of_singleton.
Defined.


Lemma cd_entry_gone_witness :
  Cli.cd "/tmp" Examples.failing_body
    (snd (Examples.removing_body Examples.home))
  = (Raise (Exn FileNotFoundError "" None),
     snd (Examples.removing_body Examples.home)).
Proof.
  apply (cd_entry_gone "/tmp" "/tmp" Examples.failing_body Examples.failing_body
           (snd (Examples.removing_body Examples.home))).
  simpl. rewrite not_elem_of_union, elem_of_difference, !not_elem_of_singleton.
  split; [| discriminate].
  intros [_ Hne]. now apply Hne.
Defined.

Lemma cd_nested_witness :
  Cli.cd "/tmp" (Cli.cd "/home" Examples.failing_body) Examples.home
  = (Raise (Exn ValueError "boom" None),
     {| Cli.cwd := "/home"; Cli.dirs := {["/home"; "/tmp"]};
        Cli.denied := {["/root"]}; Cli.files := {["/etc/fstab"]};
        Cli.other := 1 |}).
Proof.
  refine (proj2 (cd_nested "/tmp" "/home" Examples.failing_body Examples.home
                   {| Cli.cwd := "/home"; Cli.dirs := {["/home"; "/tmp"]};
                      Cli.denied := {["/root"]}; Cli.files := {["/etc/fstab"]};
                      Cli.other := 1 |}
                   (Raise (Exn ValueError "boom" None)) home_cwd_exists _ _ _ _ _)).
  - simpl. set_solver.
  - simpl. set_solver.
  - reflexivity.
  - simpl. set_solver.
  - simpl. set_solver.
Defined.


Lemma init_reports_as_it_goes_witness :
  Cli.init Examples.toy_init (["a"] ++ "a" :: ["b"]) [] ""
  = (Raise (Exn FileError "already exists" None), ["a"],
     "" +:+ "Metadata tree '" +:+ "a/.fmf" +:+ "' successfully initialized." +:+ nl).
Proof.
  destruct (init_reports_as_it_goes Examples.toy_init) as [_ Hstop].
  apply (Hstop ["a"] "a" ["b"] [] "" ["a"]); reflexivity.
Defined.

Lemma normalize_single_witness :
  Normalize.normalize Examples.toy_construct (Normalize.Class "int")
    (DList [DInt 3]) tt None
  = Raise (Exn TypeError "" None)
  /\ Normalize.normalize Examples.toy_construct (Normalize.Class "int")
       (DInt 3) tt (Some Examples.negate)
     = Ret (Normalize.Object (-3)%Z)
  /\ Normalize.normalize Examples.toy_construct (Normalize.Class "int")
       (DInt 3) tt (Some Examples.falsy_normalizer)
     = Ret (Normalize.Object 3%Z).
Proof.
  split; [| split].
  - destruct (normalize_single Examples.toy_construct (Normalize.Class "int")
                (DList [DInt 3]) tt None) as (_ & _ & _ & Hnone).
    + intros args. discriminate.
    + now rewrite Hnone.
  - destruct (normalize_single Examples.toy_construct (Normalize.Class "int")
                (DInt 3) tt (Some Examples.negate)) as (_ & Htrue & _).
    + intros args. discriminate.
    + apply (Htrue Examples.negate); reflexivity.
  - destruct (normalize_single Examples.toy_construct (Normalize.Class "int")
                (DInt 3) tt (Some Examples.falsy_normalizer)) as (_ & _ & Hfalse & _).
    + intros args. discriminate.
    + apply (Hfalse Examples.falsy_normalizer); reflexivity.
Defined.

Lemma normalizer_replaces_class_witness :
  Normalize.normalize Examples.toy_construct Examples.list_of_int
    (DList [DInt 3]) tt (Some Examples.negate)
  = Normalize.normalize (fun _ _ _ => Raise (Exn TypeError "" None))
      Examples.list_of_int (DList [DInt 3]) tt (Some Examples.negate)
  /\ Normalize.normalize Examples.toy_construct Examples.list_of_int
       (DList [DInt 3]) tt (Some Examples.falsy_normalizer)
     = Normalize.normalize Examples.toy_construct Examples.list_of_int
         (DList [DInt 3]) tt None.
Proof.
  split.
  - apply (normalizer_replaces_class Examples.toy_construct
             (fun _ _ _ => Raise (Exn TypeError "" None))
             Examples.list_of_int (DList [DInt 3]) tt Examples.negate).
    reflexivity.
  - apply (normalizer_replaces_class Examples.toy_construct
             Examples.toy_construct
             Examples.list_of_int (DList [DInt 3]) tt Examples.falsy_normalizer).
    reflexivity.
Defined.

Lemma normalize_first_failure_witness :
  Normalize.normalize Examples.toy_construct Examples.list_of_int
    (DList ([DInt 3] ++ DStr "x" :: [DInt 4])) tt None
  = Raise (Exn ValueError "invalid literal for int()" None).
Proof.
  apply (normalize_first_failure Examples.toy_construct (Normalize.Class "int") []
           [DInt 3] [DInt 4] (DStr "x") tt None).
  - intros x [<- | []]. eexists. reflexivity.
  - reflexivity.
Defined.

Lemma normalize_append_witness :
  Normalize.normalize Examples.toy_construct Examples.list_of_int
    (DList ([DInt 1] ++ [DStr "2"])) tt None
  = Ret (Normalize.Objects ([1%Z] ++ [2%Z])).
Proof.
  apply (normalize_append Examples.toy_construct (Normalize.Class "int") []
           [DInt 1] [DStr "2"] tt None); reflexivity.
Defined.
